(** * Rule-based fallback core of the insurance query backend

    Shallow embedding of [app/services/clause_master.py] (class
    [ClauseMaster]) and of the fallback entity extraction of
    [app/services/llm_service.py].

    Conventions of the embedding:
    - Python [str] is [string]; characters are ASCII (code points above
      127 are carried along as opaque bytes that are neither letters,
      digits nor white space);
    - Python [int] is [Z]; Python [float] is IEEE binary64, modelled by
      [spec_float] with the operations of [SpecFloat] at precision 53;
    - a Python [dict] is a [gmap string pyval]; a [set] of words is a
      [gset string];
    - a call that may raise returns a [result], whose [Raise] carries the
      class of the exception;
    - [int()] and [str()] are the conversions of the language, without
      the interpreter's configurable cap on the number of digits. *)

From Stdlib Require Import ZArith String Ascii List Bool Lia.
From Stdlib Require Import Numbers.DecimalString.
From Stdlib Require Import Floats.SpecFloat.
From Stdlib Require Import Sorting.Sorted Sorting.Permutation.
From stdpp Require Import gmap strings list.

Local Open Scope string_scope.

(** ** Characters and strings, as Python treats them *)

Module PyStr.

Definition code (c : ascii) : nat := nat_of_ascii c.

Definition between (lo hi : nat) (c : ascii) : bool :=
  Nat.leb lo (code c) && Nat.leb (code c) hi.

(** [str.isspace] on one ASCII character: TAB..CR, FS..US and the blank. *)
Definition is_space (c : ascii) : bool := between 9 13 c || between 28 32 c.

Definition is_digit (c : ascii) : bool := between 48 57 c.
Definition is_upper (c : ascii) : bool := between 65 90 c.
Definition is_lower (c : ascii) : bool := between 97 122 c.

(** The class [\w] of the [re] module. *)
Definition is_word (c : ascii) : bool :=
  is_digit c || is_upper c || is_lower c || Ascii.eqb c "_".

Definition lower_char (c : ascii) : ascii :=
  if is_upper c then ascii_of_nat (code c + 32) else c.

(** [s.lower()] *)
Fixpoint lower (s : string) : string :=
  match s with
  | EmptyString => EmptyString
  | String c t => String (lower_char c) (lower t)
  end.

Fixpoint starts_with (p s : string) : bool :=
  match p, s with
  | EmptyString, _ => true
  | String a p', String b s' => Ascii.eqb a b && starts_with p' s'
  | String _ _, EmptyString => false
  end.

(** [sub in s] *)
Fixpoint contains (sub s : string) : bool :=
  starts_with sub s ||
  match s with
  | EmptyString => false
  | String _ t => contains sub t
  end.

Definition is_empty (s : string) : bool :=
  match s with EmptyString => true | String _ _ => false end.

Definition snoc (s : string) (c : ascii) : string := s +:+ String c EmptyString.

(** [s.split()]: maximal runs of characters that are not white space. *)
Fixpoint split_ws_from (word s : string) : list string :=
  match s with
  | EmptyString => if is_empty word then [] else [word]
  | String c t =>
      if is_space c
      then (if is_empty word then split_ws_from EmptyString t
            else word :: split_ws_from EmptyString t)
      else split_ws_from (snoc word c) t
  end.

Definition split_ws (s : string) : list string := split_ws_from EmptyString s.

(** [s.split(sep)] for a one-character separator: always at least one
    field, empty fields are kept. *)
Fixpoint split_on_from (sep : ascii) (field s : string) : list string :=
  match s with
  | EmptyString => [field]
  | String c t =>
      if Ascii.eqb c sep then field :: split_on_from sep EmptyString t
      else split_on_from sep (snoc field c) t
  end.

Definition split_on (sep : ascii) (s : string) : list string :=
  split_on_from sep EmptyString s.

(** [s.replace(c, "")] for a one-character [c]. *)
Fixpoint remove_char (x : ascii) (s : string) : string :=
  match s with
  | EmptyString => EmptyString
  | String c t => if Ascii.eqb c x then remove_char x t else String c (remove_char x t)
  end.

Fixpoint lstrip (s : string) : string :=
  match s with
  | String c t => if is_space c then lstrip t else s
  | EmptyString => EmptyString
  end.

(** [rstrip] keeps a character when it is not white space or when
    something that is kept follows it. *)
Fixpoint rstrip (s : string) : string :=
  match s with
  | EmptyString => EmptyString
  | String c t =>
      let t' := rstrip t in
      if is_space c && is_empty t' then EmptyString else String c t'
  end.

(** [s.strip()] *)
Definition strip (s : string) : string := rstrip (lstrip s).

(** Value of a run of decimal digits, most significant first. *)
Fixpoint digits_value (acc : Z) (s : string) : Z :=
  match s with
  | EmptyString => acc
  | String c t => digits_value (10 * acc + Z.of_nat (code c - 48)) t
  end.

(** The body of an integer literal accepted by [int()]: digits, with
    single underscores allowed between two digits. [after_digit] tells
    whether the previous character was a digit. *)
Fixpoint int_body (after_digit : bool) (acc : Z) (s : string) : option Z :=
  match s with
  | EmptyString => if after_digit then Some acc else None
  | String c t =>
      if is_digit c then int_body true (10 * acc + Z.of_nat (code c - 48)) t
      else if Ascii.eqb c "_" && after_digit then
        match t with
        | String d _ => if is_digit d then int_body false acc t else None
        | EmptyString => None
        end
      else None
  end.

(** [int(s)] for a string [s]; [None] stands for [ValueError]. *)
Definition to_int (s : string) : option Z :=
  match strip s with
  | String "-" t => option_map Z.opp (int_body false 0 t)
  | String "+" t => int_body false 0 t
  | t => int_body false 0 t
  end.

(** [str(n)] for an integer [n]. *)
Definition of_int (n : Z) : string := NilZero.string_of_int (Z.to_int n).

End PyStr.

(** ** The fragment of [re] the program uses

    A backtracking matcher with Python's priorities: alternatives left
    to right, greedy repetition longest first, lazy repetition shortest
    first. Every pattern of the program has exactly one capturing group,
    so the matcher keeps one capture. *)

Module Re.

Inductive regex : Type :=
| Eps
| Chr (p : ascii -> bool)
| Cat (r1 r2 : regex)
| Alt (r1 r2 : regex)
| Star (r : regex)
| LazyStar (r : regex)
| Group (r : regex)
| Lookahead (r : regex)
| Eol
| WordBoundary.

(** Matching state: the character just before the cursor, the text
    from the cursor on, and the text of group 1 if it has been closed. *)
Record cursor : Type := Cursor {
  before : option ascii;
  rest : string;
  group1 : option string
}.

Definition take (n : nat) (s : string) : string := String.substring 0 n s.

Definition is_word_opt (o : option ascii) : bool :=
  match o with Some c => PyStr.is_word c | None => false end.

Definition head (s : string) : option ascii :=
  match s with String c _ => Some c | EmptyString => None end.

Definition newline : ascii := ascii_of_nat 10.

(** [$] without MULTILINE: at the end, or before a final newline. *)
Definition at_eol (s : string) : bool :=
  match s with
  | EmptyString => true
  | String c EmptyString => Ascii.eqb c newline
  | _ => false
  end.

Definition orelse {A} (x : option A) (y : option A) : option A :=
  match x with Some _ => x | None => y end.

Definition progress (old new : cursor) : bool :=
  Nat.ltb (String.length (rest new)) (String.length (rest old)).

(** Greedy repetition: one more round of the body first, the
    continuation only when that fails. A round must consume input, so
    the length of the remaining text bounds the number of rounds. *)
Fixpoint star_loop (body : cursor -> (cursor -> option cursor) -> option cursor)
    (k : cursor -> option cursor) (fuel : nat) (c : cursor) {struct fuel}
  : option cursor :=
  match fuel with
  | O => k c
  | S fuel' =>
      orelse
        (body c (fun c1 => if progress c c1 then star_loop body k fuel' c1 else None))
        (k c)
  end.

(** Lazy repetition: the continuation first. *)
Fixpoint lazy_loop (body : cursor -> (cursor -> option cursor) -> option cursor)
    (k : cursor -> option cursor) (fuel : nat) (c : cursor) {struct fuel}
  : option cursor :=
  match fuel with
  | O => k c
  | S fuel' =>
      orelse
        (k c)
        (body c (fun c1 => if progress c c1 then lazy_loop body k fuel' c1 else None))
  end.

Fixpoint run (r : regex) (c : cursor) (k : cursor -> option cursor) {struct r}
  : option cursor :=
  match r with
  | Eps => k c
  | Chr p =>
      match rest c with
      | String a t => if p a then k (Cursor (Some a) t (group1 c)) else None
      | EmptyString => None
      end
  | Cat r1 r2 => run r1 c (fun c1 => run r2 c1 k)
  | Alt r1 r2 => orelse (run r1 c k) (run r2 c k)
  | Star r1 => star_loop (run r1) k (String.length (rest c)) c
  | LazyStar r1 => lazy_loop (run r1) k (String.length (rest c)) c
  | Group r1 =>
      run r1 c (fun c1 =>
        k (Cursor (before c1) (rest c1)
             (Some (take (String.length (rest c) - String.length (rest c1)) (rest c)))))
  | Lookahead r1 =>
      match run r1 c Some with
      | Some _ => k c
      | None => None
      end
  | Eol => if at_eol (rest c) then k c else None
  | WordBoundary =>
      if xorb (is_word_opt (before c)) (is_word_opt (head (rest c))) then k c else None
  end.

(** [re.search]: the leftmost start position at which the pattern
    matches; the result is the text of group 1. *)
Fixpoint search_from (r : regex) (prev : option ascii) (s : string) : option string :=
  match run r (Cursor prev s None) Some with
  | Some c => Some (default EmptyString (group1 c))
  | None =>
      match s with
      | String a t => search_from r (Some a) t
      | EmptyString => None
      end
  end.

Definition search (r : regex) (s : string) : option string := search_from r None s.

(** Pattern builders. The program compiles every pattern with
    IGNORECASE, so a literal letter matches both of its cases. *)
Definition ichar (x : ascii) : regex :=
  Chr (fun a => Ascii.eqb (PyStr.lower_char a) (PyStr.lower_char x)).

Fixpoint lit (s : string) : regex :=
  match s with
  | EmptyString => Eps
  | String x EmptyString => ichar x
  | String x t => Cat (ichar x) (lit t)
  end.

Definition digit : regex := Chr PyStr.is_digit.
Definition space : regex := Chr PyStr.is_space.
Definition plus (r : regex) : regex := Cat r (Star r).
Definition opt (r : regex) : regex := Alt r Eps.
Definition dot : regex := Chr (fun a => negb (Ascii.eqb a newline)).

Fixpoint alts (rs : list regex) : regex :=
  match rs with
  | [] => Chr (fun _ => false)
  | [r] => r
  | r :: rs' => Alt r (alts rs')
  end.

Fixpoint cats (rs : list regex) : regex :=
  match rs with
  | [] => Eps
  | [r] => r
  | r :: rs' => Cat r (cats rs')
  end.

End Re.

(** ** Python values, dictionaries and exceptions *)

(** IEEE binary64, the type of Python's [float]. *)
Abbreviation float := spec_float.

Module Float.

Definition prec : Z := 53.
Definition emax : Z := 1024.

(** [float(n)] for an integer [n]. *)
Definition of_Z (n : Z) : float := binary_normalize prec emax n 0 false.
Definition add : float -> float -> float := SFadd prec emax.
Definition div : float -> float -> float := SFdiv prec emax.
Definition ltb : float -> float -> bool := SFltb.

(** The decimal literal [n/d] written in the source (for instance
    [0.3] is [decimal 3 10]): the binary64 number nearest to it. *)
Definition decimal (n d : Z) : float := div (of_Z n) (of_Z d).

Definition zero : float := S754_zero false.
Definition one : float := Eval vm_compute in of_Z 1.
Definition f0_1 : float := Eval vm_compute in decimal 1 10.
Definition f0_2 : float := Eval vm_compute in decimal 2 10.
Definition f0_3 : float := Eval vm_compute in decimal 3 10.
Definition f0_8 : float := Eval vm_compute in decimal 8 10.

(** [min(x, y)] of two floats: [y] only when [y < x]. *)
Definition min (x y : float) : float := if ltb y x then y else x.

#[global] Instance float_eq_dec : EqDecision float.
Proof. solve_decision. Defined.

End Float.

Inductive pyval : Type :=
| PyNone
| PyInt (n : Z)
| PyFloat (x : float)
| PyStr (s : string).

#[global] Instance pyval_eq_dec : EqDecision pyval.
Proof. solve_decision. Defined.

(** A dictionary with string keys, such as a clause record. *)
Abbreviation pydict := (gmap string pyval).

Inductive exn : Type := AttributeError | KeyError | TypeError | ValueError.

Inductive result (A : Type) : Type :=
| Ok (a : A)
| Raise (e : exn).
Arguments Ok {A} a.
Arguments Raise {A} e.

Definition bind {A B} (x : result A) (f : A -> result B) : result B :=
  match x with
  | Ok a => f a
  | Raise e => Raise e
  end.

Notation "x <- e1 ;; e2" := (bind e1 (fun x => e2))
  (at level 100, e1 at next level, right associativity).

(** [d[key]] *)
Definition getitem (d : pydict) (key : string) : result pyval :=
  match d !! key with
  | Some v => Ok v
  | None => Raise KeyError
  end.

(** [d.get(key, dflt)] *)
Definition get (d : pydict) (key : string) (dflt : pyval) : pyval :=
  default dflt (d !! key).

(** ** [ClauseMaster]: clause patterns, decision rules, extraction *)

Module ClauseMaster.

Import Re.

(** *** [self.clause_patterns] *)

(** The patterns are quoted with the layout of [re.VERBOSE]: blanks
    between the tokens are not part of the pattern.

    [( \d+ ) \s* (?: month | year ) s? \s* waiting] *)
Definition waiting_pattern_1 : regex :=
  cats [Group (plus digit); Star space; Alt (lit "month") (lit "year");
        opt (lit "s"); Star space; lit "waiting"].

(** [waiting \s* period \s* of \s* ( \d+ ) \s* (?: month | year ) s?] *)
Definition waiting_pattern_2 : regex :=
  cats [lit "waiting"; Star space; lit "period"; Star space; lit "of"; Star space;
        Group (plus digit); Star space; Alt (lit "month") (lit "year"); opt (lit "s")].

(** [\d+ (?: , \d+ )*] *)
Definition amount_re : regex := Cat (plus digit) (Star (Cat (lit ",") (plus digit))).

(** [( \d+ (?: , \d+ )* ) \s* (?: lakh | lac | thousand | million )] *)
Definition coverage_pattern_1 : regex :=
  cats [Group amount_re; Star space;
        alts [lit "lakh"; lit "lac"; lit "thousand"; lit "million"]].

(** [coverage \s* limit \s* ( \d+ (?: , \d+ )* )] *)
Definition coverage_pattern_2 : regex :=
  cats [lit "coverage"; Star space; lit "limit"; Star space; Group amount_re].

(** [( .*? ) (?= \n | $ )] *)
Definition to_end_of_line : regex :=
  Cat (Group (LazyStar dot)) (Lookahead (Alt (Chr (Ascii.eqb newline)) Eol)).

(** [exclusion [s]? \s* : \s* ( .*? ) (?= \n | $ )] *)
Definition exclusion_pattern_1 : regex :=
  cats [lit "exclusion"; opt (lit "s"); Star space; lit ":"; Star space; to_end_of_line].

(** [not \s* covered \s* : \s* ( .*? ) (?= \n | $ )] *)
Definition exclusion_pattern_2 : regex :=
  cats [lit "not"; Star space; lit "covered"; Star space; lit ":"; Star space;
        to_end_of_line].

Definition waiting_period_patterns : list regex := [waiting_pattern_1; waiting_pattern_2].
Definition coverage_limit_patterns : list regex := [coverage_pattern_1; coverage_pattern_2].
Definition exclusions_patterns : list regex := [exclusion_pattern_1; exclusion_pattern_2].

(** *** [self.decision_rules] *)

Definition min_age : Z := 18.
Definition max_age : Z := 65.
Definition waiting_surgery : Z := 12.
Definition waiting_pre_existing : Z := 24.
Definition waiting_general : Z := 3.
Definition coverage_types_surgery : list string := ["knee"; "hip"; "heart"; "brain"; "spine"].
Definition coverage_types_medical_conditions : list string :=
  ["cancer"; "diabetes"; "hypertension"].

(** *** [extract_clause_info] *)

Record clause_info : Type := ClauseInfo {
  clause_type : string;
  waiting_period : option Z;
  coverage_limit : option Z;
  exclusions : list string;
  conditions : list string
}.

(** [for pattern in patterns: match = re.search(...); if match: ... break]
    yields group 1 of the first pattern of the family that matches. *)
Fixpoint first_match (patterns : list regex) (content : string) : option string :=
  match patterns with
  | [] => None
  | p :: ps =>
      match search p content with
      | Some g => Some g
      | None => first_match ps content
      end
  end.

(** [int(g)] on a captured run of digits. *)
Definition int_of_digits (g : string) : Z := PyStr.digits_value 0 g.

Definition extract_clause_info (clause_content : string) : clause_info :=
  let info0 := ClauseInfo "general" None None [] [] in
  (* Check for waiting period *)
  let info1 :=
    match first_match waiting_period_patterns clause_content with
    | Some g =>
        ClauseInfo "waiting_period" (Some (int_of_digits g))
          (coverage_limit info0) (exclusions info0) (conditions info0)
    | None => info0
    end in
  (* Check for coverage limits *)
  let info2 :=
    match first_match coverage_limit_patterns clause_content with
    | Some g =>
        let amount_str := PyStr.remove_char "," g in
        ClauseInfo "coverage_limit" (waiting_period info1)
          (Some (int_of_digits amount_str)) (exclusions info1) (conditions info1)
    | None => info1
    end in
  (* Check for exclusions *)
  match first_match exclusions_patterns clause_content with
  | Some g =>
      ClauseInfo "exclusion" (waiting_period info2) (coverage_limit info2)
        (map PyStr.strip (PyStr.split_on "," g)) (conditions info2)
  | None => info2
  end.

(** *** [evaluate_coverage_eligibility] *)

(** One entry of the [query_entities] dictionary, which is the dump of
    an [ExtractedEntities] model or a hand-built dictionary: the key may
    be missing, or map to [None], or map to a value of the field's type. *)
Inductive field (A : Type) : Type :=
| Absent
| Null
| Given (a : A).
Arguments Absent {A}.
Arguments Null {A}.
Arguments Given {A} a.

Record query_entities : Type := QueryEntities {
  age : field Z;
  gender : field string;
  condition : field string;
  location : field string;
  policy_duration : field string;
  coverage_type : field string
}.

(** [d.get(key)]: [None] when the key is missing. *)
Definition get_field {A} (f : field A) : option A :=
  match f with
  | Given a => Some a
  | Absent | Null => None
  end.

(** [d.get(key, dflt)]: the default replaces a missing key only. *)
Definition get_field_default {A} (f : field A) (dflt : A) : option A :=
  match f with
  | Given a => Some a
  | Absent => Some dflt
  | Null => None
  end.

Record evaluation : Type := Evaluation {
  eligible : bool;
  decision : string;
  amount : option Z;
  justification : string;
  waiting_period_info : string;
  ev_exclusions : list string;
  confidence_score : float
}.

Definition set_justification (j : string) (e : evaluation) : evaluation :=
  Evaluation (eligible e) (decision e) (amount e) j (waiting_period_info e)
    (ev_exclusions e) (confidence_score e).

Definition set_waiting_period_info (w : string) (e : evaluation) : evaluation :=
  Evaluation (eligible e) (decision e) (amount e) (justification e) w
    (ev_exclusions e) (confidence_score e).

Definition set_exclusions (x : list string) (e : evaluation) : evaluation :=
  Evaluation (eligible e) (decision e) (amount e) (justification e)
    (waiting_period_info e) x (confidence_score e).

Definition initial_evaluation : evaluation :=
  Evaluation false "rejected" None "" "" [] Float.zero.

(** [any(w in s for w in words)] *)
Definition any_in (words : list string) (s : string) : bool :=
  existsb (fun w => PyStr.contains w s) words.

Definition required_waiting_of (condition : string) : Z :=
  if any_in coverage_types_surgery condition then waiting_surgery
  else if any_in coverage_types_medical_conditions condition then waiting_pre_existing
  else waiting_general.

(** The branch [if age: if age < min_age or age > max_age: ... return]. *)
Definition age_check (age : option Z) : option evaluation :=
  match age with
  | Some a =>
      if negb (a =? 0)%Z && ((a <? min_age)%Z || (a >? max_age)%Z)
      then Some (set_justification
                   ("Age " +:+ PyStr.of_int a +:+ " is outside the eligible range ("
                    +:+ PyStr.of_int min_age +:+ "-" +:+ PyStr.of_int max_age +:+ " years)")
                   initial_evaluation)
      else None
  | None => None
  end.

Definition waiting_rejection (policy_months required_waiting : Z) (condition : string)
  : evaluation :=
  set_justification
    ("Waiting period not met. Required: " +:+ PyStr.of_int required_waiting
     +:+ " months, Current: " +:+ PyStr.of_int policy_months +:+ " months")
    (set_waiting_period_info
       ("Policy is only " +:+ PyStr.of_int policy_months +:+ " months old, but "
        +:+ PyStr.of_int required_waiting +:+ " months waiting period is required for "
        +:+ condition)
       initial_evaluation).

(** The branch [if policy_duration and condition: ...]; [Ok None] when
    the evaluation goes on to the clauses. *)
Definition waiting_check (policy_duration : option string) (condition : string)
  : result (option evaluation) :=
  match policy_duration with
  | Some d =>
      if negb (PyStr.is_empty d) && negb (PyStr.is_empty condition) then
        match PyStr.to_int d with
        | None => Raise ValueError
        | Some policy_months =>
            let required_waiting := required_waiting_of condition in
            if (policy_months <? required_waiting)%Z
            then Ok (Some (waiting_rejection policy_months required_waiting condition))
            else Ok None
        end
      else Ok None
  | None => Ok None
  end.

(** State of the loop over the matched clauses. *)
Record scan_state : Type := ScanState {
  max_coverage : Z;
  applicable_clauses : list pyval;
  found_exclusions : list string
}.

(** A clause content that is not a string makes [re.search] raise. *)
Definition content_of (v : pyval) : result string :=
  match v with
  | PyStr s => Ok s
  | _ => Raise TypeError
  end.

Definition truthy_int (o : option Z) : bool :=
  match o with
  | Some n => negb (n =? 0)%Z
  | None => false
  end.

Fixpoint scan_clauses (matched_clauses : list pydict) (st : scan_state)
  : result scan_state :=
  match matched_clauses with
  | [] => Ok st
  | clause :: others =>
      v <- getitem clause "clause_content" ;;
      content <- content_of v ;;
      let info := extract_clause_info content in
      st1 <- (if truthy_int (coverage_limit info)
              then id <- getitem clause "clause_id" ;;
                   Ok (ScanState
                         (Z.max (max_coverage st) (default 0%Z (coverage_limit info)))
                         (applicable_clauses st ++ [id])
                         (found_exclusions st))
              else Ok st) ;;
      let st2 :=
        match exclusions info with
        | [] => st1
        | _ :: _ => ScanState (max_coverage st1) (applicable_clauses st1)
                      (found_exclusions st1 ++ exclusions info)
        end in
      scan_clauses others st2
  end.

(** The final [if max_coverage > 0: ... else: ...]. *)
Definition coverage_decision (condition : string) (st : scan_state) : evaluation :=
  if (max_coverage st >? 0)%Z then
    Evaluation true "approved" (Some (max_coverage st))
      ("Coverage approved for " +:+ condition +:+ " with maximum amount of "
       +:+ PyStr.of_int (max_coverage st))
      "" (found_exclusions st) Float.f0_8
  else
    Evaluation false "rejected" None
      "No applicable coverage clauses found for the query"
      "" (found_exclusions st) Float.f0_3.

Definition evaluate_coverage_eligibility (qe : query_entities)
    (matched_clauses : list pydict) : result evaluation :=
  (* Check age eligibility *)
  match age_check (get_field (age qe)) with
  | Some rejected => Ok rejected
  | None =>
      (* Check waiting periods *)
      condition <- match get_field_default (condition qe) "" with
                   | Some s => Ok (PyStr.lower s)
                   | None => Raise AttributeError
                   end ;;
      waiting <- waiting_check (get_field (policy_duration qe)) condition ;;
      match waiting with
      | Some rejected => Ok rejected
      | None =>
          (* Check coverage limits from matched clauses *)
          st <- scan_clauses matched_clauses (ScanState 0 [] []) ;;
          Ok (coverage_decision condition st)
      end
  end.

(** *** [get_clause_summary] *)

(** The summary dictionary; [summary_exclusions] is its key
    "exclusions". *)
Record clause_summary : Type := ClauseSummary {
  total_clauses : Z;
  clause_types : gmap string Z;
  coverage_limits : list Z;
  waiting_periods : list Z;
  summary_exclusions : list string
}.

(** [types[clause_type] = types.get(clause_type, 0) + 1] *)
Definition count_type (clause_type : string) (types : gmap string Z) : gmap string Z :=
  <[clause_type := (default 0 (types !! clause_type) + 1)%Z]> types.

(** [if n: l.append(n)] *)
Definition append_truthy (l : list Z) (n : option Z) : list Z :=
  if truthy_int n then l ++ [default 0%Z n] else l.

(** The loop over the clauses. *)
Fixpoint summarise (clauses : list pydict) (summary : clause_summary)
  : result clause_summary :=
  match clauses with
  | [] => Ok summary
  | clause :: others =>
      v <- getitem clause "clause_content" ;;
      content <- content_of v ;;
      let info := extract_clause_info content in
      summarise others
        (ClauseSummary (total_clauses summary)
           (* Count clause types *)
           (count_type (clause_type info) (clause_types summary))
           (* Collect coverage limits *)
           (append_truthy (coverage_limits summary) (coverage_limit info))
           (* Collect waiting periods *)
           (append_truthy (waiting_periods summary) (waiting_period info))
           (* Collect exclusions *)
           (summary_exclusions summary ++ exclusions info))
  end.

Definition get_clause_summary (clauses : list pydict) : result clause_summary :=
  summarise clauses (ClauseSummary (Z.of_nat (length clauses)) ∅ [] [] []).

End ClauseMaster.

(** *** [match_clauses_to_query] *)

Module Matcher.

Definition medical_terms : list string :=
  ["surgery"; "knee"; "hip"; "heart"; "cancer"; "diabetes"].

Definition locations : list string :=
  ["mumbai"; "delhi"; "pune"; "bangalore"; "chennai"].

(** [set(s.split())] *)
Definition word_set (s : string) : gset string := list_to_set (PyStr.split_ws s).

(** [len(a) / len(b)], the true division of two lengths: both are
    converted exactly (they are far below 2^53) and the quotient is
    rounded once. *)
Definition ratio (a b : nat) : float :=
  Float.div (Float.of_Z (Z.of_nat a)) (Float.of_Z (Z.of_nat b)).

(** [for term in terms: if term in query_lower and term in
    clause_content: relevance_score += bonus] *)
Definition add_bonuses (terms : list string) (bonus : float)
    (query_lower clause_content : string) (score : float) : float :=
  fold_left
    (fun acc term =>
       if PyStr.contains term query_lower && PyStr.contains term clause_content
       then Float.add acc bonus else acc)
    terms score.

(** The value of [relevance_score] when the loop body reaches the
    threshold test. *)
Definition relevance (query_lower clause_content : string) : float :=
  let query_words := word_set query_lower in
  let clause_words := word_set clause_content in
  let common_words := query_words ∩ clause_words in
  let base :=
    if Nat.eqb (size common_words) 0 then Float.zero
    else ratio (size common_words) (size query_words) in
  add_bonuses locations Float.f0_2 query_lower clause_content
    (add_bonuses medical_terms Float.f0_3 query_lower clause_content base).

(** [clause.get("clause_content", "").lower()]: only a string has
    [lower]. *)
Definition clause_content_lower (clause : pydict) : result string :=
  match get clause "clause_content" (PyStr "") with
  | PyStr s => Ok (PyStr.lower s)
  | _ => Raise AttributeError
  end.

(** The loop that fills [matched_clauses]. The assignment
    [clause["relevance_score"] = ...] updates the caller's dictionary
    in place; the embedding returns the updated dictionary, which is
    what the returned list holds. *)
Fixpoint collect (query_lower : string) (clauses : list pydict) : result (list pydict) :=
  match clauses with
  | [] => Ok []
  | clause :: others =>
      clause_content <- clause_content_lower clause ;;
      let relevance_score := relevance query_lower clause_content in
      matched <- collect query_lower others ;;
      Ok (if Float.ltb Float.f0_1 relevance_score
          then <["relevance_score" := PyFloat (Float.min relevance_score Float.one)]> clause
               :: matched
          else matched)
  end.

(** [x.get("relevance_score", 0)], the sort key. Every clause the loop
    keeps carries a float there. *)
Definition sort_key (x : pydict) : float :=
  match get x "relevance_score" (PyInt 0) with
  | PyFloat s => s
  | PyInt n => Float.of_Z n
  | _ => Float.zero
  end.

(** [list.sort(key=..., reverse=True)] is stable: an element moves
    only behind elements with a strictly larger key. *)
Fixpoint insert_desc (x : pydict) (sorted : list pydict) : list pydict :=
  match sorted with
  | [] => [x]
  | y :: ys =>
      if Float.ltb (sort_key x) (sort_key y) then y :: insert_desc x ys
      else x :: sorted
  end.

Definition sort_desc (l : list pydict) : list pydict := foldr insert_desc [] l.

Definition match_clauses_to_query (query : string) (clauses : list pydict)
  : result (list pydict) :=
  let query_lower := PyStr.lower query in
  matched_clauses <- collect query_lower clauses ;;
  Ok (sort_desc matched_clauses).

End Matcher.

(** ** [LLMService]: the fallback entity extraction *)

Module LLMService.

Import Re.

(** The model [ExtractedEntities]: every field optional, [None] by
    default. *)
Record ExtractedEntities : Type := Entities {
  age : option Z;
  gender : option string;
  condition : option string;
  location : option string;
  policy_duration : option string;
  coverage_type : option string
}.

(** [[\s-]] *)
Definition space_or_dash : regex :=
  Chr (fun a => PyStr.is_space a || Ascii.eqb a "-").

(** [( \d+ ) [\s-]* (?: year | yr ) s? [\s-]* old] *)
Definition age_pattern : regex :=
  cats [Group (plus digit); Star space_or_dash; Alt (lit "year") (lit "yr");
        opt (lit "s"); Star space_or_dash; lit "old"].

(** [\b ( male | female | man | woman ) \b] *)
Definition gender_pattern : regex :=
  cats [WordBoundary;
        Group (alts [lit "male"; lit "female"; lit "man"; lit "woman"]);
        WordBoundary].

(** [( \d+ ) [\s-]* (?: month | year | yr ) s? [\s-]* (?: old | policy )] *)
Definition duration_pattern : regex :=
  cats [Group (plus digit); Star space_or_dash;
        alts [lit "month"; lit "year"; lit "yr"]; opt (lit "s");
        Star space_or_dash; Alt (lit "old") (lit "policy")].

Definition medical_keywords : list string :=
  ["surgery"; "operation"; "knee"; "hip"; "heart"; "cancer"; "diabetes"].

Definition locations : list string :=
  ["Mumbai"; "Delhi"; "Pune"; "Bangalore"; "Chennai"; "Kolkata"].

(** [for w in words: if w.lower() in query.lower(): ... = w; break] *)
Definition first_keyword (words : list string) (query : string) : option string :=
  List.find (fun w => PyStr.contains (PyStr.lower w) (PyStr.lower query)) words.

Definition _fallback_entity_extraction (query : string) : ExtractedEntities :=
  Entities
    (option_map ClauseMaster.int_of_digits (search age_pattern query))
    (option_map PyStr.lower (search gender_pattern query))
    (first_keyword medical_keywords query)
    (first_keyword locations query)
    (search duration_pattern query)
    None.

Definition dump_field {A} (o : option A) : ClauseMaster.field A :=
  match o with
  | Some a => ClauseMaster.Given a
  | None => ClauseMaster.Null
  end.

(** [entities.dict()]: every field of the model is a key of the
    dictionary, an unset one with value [None]. *)
Definition dict (e : ExtractedEntities) : ClauseMaster.query_entities :=
  ClauseMaster.QueryEntities
    (dump_field (age e)) (dump_field (gender e)) (dump_field (condition e))
    (dump_field (location e)) (dump_field (policy_duration e))
    (dump_field (coverage_type e)).

(** The first two steps of [_fallback_decision]: extract the entities,
    then evaluate them against the matched clauses. *)
Definition fallback_evaluation (query : string) (matched_clauses : list pydict)
  : result ClauseMaster.evaluation :=
  let entities := _fallback_entity_extraction query in
  let entities_dict := dict entities in
  ClauseMaster.evaluate_coverage_eligibility entities_dict matched_clauses.

(** *** [_fallback_decision] *)

(** The keyword arguments of the call [InsuranceDecision(...)] that
    ends [_fallback_decision]. The keys "waiting_period_info" and
    "exclusions" of an evaluation are always set, so the two [get]
    return their values. What the model's validation makes of the
    arguments is pydantic's and not part of the embedding. *)
Record InsuranceDecision : Type := Decision {
  decision : string;
  amount : option Z;
  justification : string;
  mapped_clauses : list pyval;
  confidence_score : float;
  waiting_period_info : string;
  exclusions : list string
}.

(** [[clause["clause_id"] for clause in clauses]] *)
Fixpoint clause_ids (clauses : list pydict) : result (list pyval) :=
  match clauses with
  | [] => Ok []
  | clause :: others =>
      id <- getitem clause "clause_id" ;;
      ids <- clause_ids others ;;
      Ok (id :: ids)
  end.

Definition _fallback_decision (query : string) (matched_clauses : list pydict)
  : result InsuranceDecision :=
  (* Extract entities, evaluate coverage *)
  evaluation <- fallback_evaluation query matched_clauses ;;
  (* Map clause IDs *)
  mapped_clauses <- clause_ids (firstn 3 matched_clauses) ;;
  Ok (Decision (ClauseMaster.decision evaluation) (ClauseMaster.amount evaluation)
        (ClauseMaster.justification evaluation) mapped_clauses
        (ClauseMaster.confidence_score evaluation)
        (ClauseMaster.waiting_period_info evaluation)
        (ClauseMaster.ev_exclusions evaluation)).

End LLMService.

(** ** [DocumentProcessor]: the text chunks *)

Module DocumentProcessor.

(** [settings.CHUNK_SIZE] and [settings.CHUNK_OVERLAP] *)
Definition CHUNK_SIZE : Z := 1000.
Definition CHUNK_OVERLAP : Z := 200.

(** The two attributes [__init__] sets. *)
Record processor : Type := Processor {
  chunk_size : Z;
  chunk_overlap : Z
}.

Definition init : processor := Processor CHUNK_SIZE CHUNK_OVERLAP.

(** [range(0, stop, step)] for a [stop] that is a length: a step of 0
    raises, a negative step gives the empty range, and a positive step
    gives the multiples of [step] below [stop]. *)
Definition range_length (stop step : Z) : Z :=
  if (stop <=? 0)%Z then 0%Z else ((stop - 1) / step + 1)%Z.

Definition range0 (stop step : Z) : result (list Z) :=
  if (step =? 0)%Z then Raise ValueError
  else if (step <? 0)%Z then Ok []
  else Ok (map (fun k => (Z.of_nat k * step)%Z)
             (seq 0 (Z.to_nat (range_length stop step)))).

(** [l[start:stop]]: a negative index counts from the end, and both
    indices are clamped to the list. *)
Definition slice {A} (l : list A) (start stop : Z) : list A :=
  let n := Z.of_nat (length l) in
  let clamp i := if (i <? 0)%Z then Z.max (i + n) 0 else Z.min i n in
  firstn (Z.to_nat (clamp stop - clamp start)) (skipn (Z.to_nat (clamp start)) l).

(** [sep.join(l)] *)
Fixpoint join (sep : string) (l : list string) : string :=
  match l with
  | [] => ""
  | w :: ws =>
      match ws with
      | [] => w
      | _ :: _ => w +:+ sep +:+ join sep ws
      end
  end.

(** The body of the loop, for the start indices that are left. *)
Fixpoint chunks_from (self : processor) (words : list string) (starts : list Z)
  : list string :=
  match starts with
  | [] => []
  | i :: others =>
      let chunk_words := slice words i (i + chunk_size self) in
      let chunk_text := join " " chunk_words in
      if negb (PyStr.is_empty (PyStr.strip chunk_text))
      then chunk_text :: chunks_from self words others
      else chunks_from self words others
  end.

Definition create_text_chunks (self : processor) (text : string)
  : result (list string) :=
  let words := PyStr.split_ws text in
  starts <- range0 (Z.of_nat (length words)) (chunk_size self - chunk_overlap self) ;;
  Ok (chunks_from self words starts).

End DocumentProcessor.

(** ** Vocabulary of the statements *)

Import ClauseMaster.

(** The lower-cased condition the evaluation works with, when reading
    it does not raise. *)
Definition condition_text (qe : query_entities) : string :=
  match get_field_default (condition qe) "" with
  | Some s => PyStr.lower s
  | None => ""
  end.

(** The evaluation returns at the age check or at the waiting-period
    check, before it looks at the clauses. *)
Definition short_circuits (qe : query_entities) : bool :=
  match age_check (get_field (age qe)) with
  | Some _ => true
  | None =>
      match waiting_check (get_field (policy_duration qe)) (condition_text qe) with
      | Ok (Some _) => true
      | _ => false
      end
  end.


(** The coverage limit a clause states, 0 when it states none. *)
Definition clause_limit (clause : pydict) : Z :=
  match clause !! "clause_content" with
  | Some (PyStr s) => default 0%Z (coverage_limit (extract_clause_info s))
  | _ => 0%Z
  end.

(** The maximum coverage limit over the matched clauses. *)
Definition max_coverage_limit (matched_clauses : list pydict) : Z :=
  foldr (fun clause m => Z.max (clause_limit clause) m) 0%Z matched_clauses.

(** The query and the first mock clause of [test_system.py]. *)
Definition test_query : string :=
  "46-year-old male, knee surgery in Pune, 3-month-old insurance policy".

Definition test_clause_content : string :=
  "Knee surgery is covered under this policy with a maximum coverage of 500,000 rupees. Waiting period of 12 months applies for surgical procedures.".

(** A clause that states a coverage limit the patterns recognise. *)
Definition limit_clause : pydict :=
  {[ "clause_id" := PyStr "clause_7.2";
     "clause_title" := PyStr "Coverage";
     "clause_content" := PyStr "Knee surgery: coverage limit 500,000 rupees" ]}.

(** *** For [extract_clause_info] *)

Fixpoint all_digits (s : string) : bool :=
  match s with
  | EmptyString => true
  | String a t => PyStr.is_digit a && all_digits t
  end.




(** Some pattern of the family matches the text. *)
Definition family_matches (patterns : list Re.regex) (text : string) : bool :=
  bool_decide (is_Some (first_match patterns text)).

(** The label of the last family that matches, in the order in which
    [extract_clause_info] tries them. *)
Definition last_family_label (text : string) : string :=
  if family_matches exclusions_patterns text then "exclusion"
  else if family_matches coverage_limit_patterns text then "coverage_limit"
  else if family_matches waiting_period_patterns text then "waiting_period"
  else "general".

(** *** For [match_clauses_to_query] *)

Import Matcher.

(** The clause content, when the clause has one, is a string. *)
Definition content_is_text (clause : pydict) : Prop :=
  match clause !! "clause_content" with
  | Some (PyStr _) | None => True
  | Some _ => False
  end.

(** The lower-cased content of a clause, empty for a clause without. *)
Definition content_lower (clause : pydict) : string :=
  match get clause "clause_content" (PyStr "") with
  | PyStr s => PyStr.lower s
  | _ => ""
  end.

(** The terms of a list that occur in the query and in the clause. *)
Definition shared (terms : list string) (query_lower clause_content : string) : list string :=
  List.filter
    (fun term => PyStr.contains term query_lower && PyStr.contains term clause_content)
    terms.

(** [n] additions of [bonus], one after the other. *)
Definition add_times (n : nat) (bonus score : float) : float :=
  Nat.iter n (fun x => Float.add x bonus) score.

(** Share of the query's words that the clause has, 0 for a query
    without words. *)
Definition base_score (query_lower clause_content : string) : float :=
  let query_words := word_set query_lower in
  let common_words := query_words ∩ word_set clause_content in
  if Nat.eqb (size query_words) 0 then Float.zero
  else ratio (size common_words) (size query_words).

(** The score as the specification words it: the base score, plus 0.3
    for each shared medical term, plus 0.2 for each shared city. *)
Definition score_spec (query_lower clause_content : string) : float :=
  add_times (length (shared locations query_lower clause_content)) Float.f0_2
    (add_times (length (shared medical_terms query_lower clause_content)) Float.f0_3
       (base_score query_lower clause_content)).

Definition clause_score (query : string) (clause : pydict) : float :=
  score_spec (PyStr.lower query) (content_lower clause).

(** A clause with its relevance score set to the clamped score. *)
Definition rescored (query : string) (clause : pydict) : pydict :=
  <["relevance_score" := PyFloat (Float.min (clause_score query clause) Float.one)]> clause.

(** The clauses that score above the threshold, in input order, each
    with its clamped score. *)
Definition kept (query : string) (clauses : list pydict) : list pydict :=
  map (rescored query)
    (List.filter (fun clause => Float.ltb Float.f0_1 (clause_score query clause)) clauses).

(** [a] may stand before [b] in a descending order. *)
Definition descending (a b : pydict) : Prop :=
  Float.ltb (sort_key a) (sort_key b) = false.


(** The sort key of a clause is a number, so comparisons with it order. *)
Definition ordered_key (clause : pydict) : Prop := sort_key clause <> S754_nan.

(** Sample clauses: the second and the third score the same against
    "knee surgery in pune", the first shares nothing with it. *)
Definition clause_a : pydict :=
  {[ "clause_id" := PyStr "a"; "clause_title" := PyStr "Maternity";
     "clause_content" := PyStr "Maternity benefits" ]}.
Definition clause_b : pydict :=
  {[ "clause_id" := PyStr "b"; "clause_title" := PyStr "Heart";
     "clause_content" := PyStr "Heart surgery 3 lakh" ]}.
Definition clause_c : pydict :=
  {[ "clause_id" := PyStr "c"; "clause_title" := PyStr "Hip";
     "clause_content" := PyStr "Hip surgery 2 lakh" ]}.
Definition clause_d : pydict :=
  {[ "clause_id" := PyStr "d"; "clause_title" := PyStr "Knee";
     "clause_content" := PyStr "Knee surgery in Pune: coverage limit 5,000";
     "relevance_score" := PyFloat Float.f0_8 ]}.
Definition sample_clauses : list pydict := [clause_a; clause_b; clause_c; clause_d].

(** *** For the pattern matcher *)

(** The texts a pattern can read, assertions reading nothing. *)
Inductive lang : Re.regex -> string -> Prop :=
| lang_Eps : lang Re.Eps ""
| lang_Chr p a : p a = true -> lang (Re.Chr p) (String a "")
| lang_Cat r1 r2 w1 w2 : lang r1 w1 -> lang r2 w2 -> lang (Re.Cat r1 r2) (w1 +:+ w2)
| lang_Alt_l r1 r2 w : lang r1 w -> lang (Re.Alt r1 r2) w
| lang_Alt_r r1 r2 w : lang r2 w -> lang (Re.Alt r1 r2) w
| lang_Star_nil r : lang (Re.Star r) ""
| lang_Star_cons r w1 w2 :
    lang r w1 -> lang (Re.Star r) w2 -> lang (Re.Star r) (w1 +:+ w2)
| lang_LazyStar_nil r : lang (Re.LazyStar r) ""
| lang_LazyStar_cons r w1 w2 :
    lang r w1 -> lang (Re.LazyStar r) w2 -> lang (Re.LazyStar r) (w1 +:+ w2)
| lang_Group r w : lang r w -> lang (Re.Group r) w
| lang_Lookahead r : lang (Re.Lookahead r) ""
| lang_Eol : lang Re.Eol ""
| lang_WordBoundary : lang Re.WordBoundary "".

(** The texts the capturing group of a pattern can hold. *)
Fixpoint captured (r : Re.regex) (g : string) : Prop :=
  match r with
  | Re.Group r1 => lang r1 g
  | Re.Cat r1 r2 | Re.Alt r1 r2 => captured r1 g \/ captured r2 g
  | Re.Star r1 | Re.LazyStar r1 => captured r1 g
  | _ => False
  end.

(** The group is closed on every way through the pattern. *)
Fixpoint sets_group (r : Re.regex) : bool :=
  match r with
  | Re.Group _ => true
  | Re.Cat r1 r2 => sets_group r1 || sets_group r2
  | Re.Alt r1 r2 => sets_group r1 && sets_group r2
  | _ => false
  end.

(** [g] occurs in [s]. *)
Definition infix (g s : string) : Prop := exists a b, s = a +:+ (g +:+ b).

(** What a successful run of [r] from [c] into the continuation at
    [c1] has done. *)
Definition step_ok (r : Re.regex) (c c1 : Re.cursor) : Prop :=
  exists w,
    Re.rest c = w +:+ Re.rest c1 /\ lang r w /\
    ((Re.group1 c1 = Re.group1 c /\ sets_group r = false) \/
     (exists g, Re.group1 c1 = Some g /\ captured r g /\ infix g (Re.rest c))).

Definition sound (r : Re.regex)
    (body : Re.cursor -> (Re.cursor -> option Re.cursor) -> option Re.cursor) : Prop :=
  forall c k x, body c k = Some x -> exists c1, k c1 = Some x /\ step_ok r c c1.

(** Every character of [s] satisfies [p]. *)
Fixpoint forall_chars (p : ascii -> bool) (s : string) : bool :=
  match s with
  | EmptyString => true
  | String a t => p a && forall_chars p t
  end.

(** The characters a pattern can read. *)
Fixpoint accepts (r : Re.regex) (a : ascii) : bool :=
  match r with
  | Re.Chr p => p a
  | Re.Cat r1 r2 | Re.Alt r1 r2 => accepts r1 a || accepts r2 a
  | Re.Star r1 | Re.LazyStar r1 | Re.Group r1 => accepts r1 a
  | _ => false
  end.

(** The least number of characters a pattern reads. *)
Fixpoint min_len (r : Re.regex) : nat :=
  match r with
  | Re.Chr _ => 1
  | Re.Cat r1 r2 => min_len r1 + min_len r2
  | Re.Alt r1 r2 => Nat.min (min_len r1) (min_len r2)
  | Re.Group r1 => min_len r1
  | _ => 0
  end.


(** *** For the strings of the extraction *)

(** No character of [s] is [c]. *)
Definition lacks (c : ascii) (s : string) : bool :=
  forall_chars (fun a => negb (Ascii.eqb a c)) s.

(** What [lstrip] returns does not start with white space, and
    [rstrip] keeps that. *)
Definition starts_clean (s : string) : bool :=
  match s with
  | EmptyString => true
  | String a _ => negb (PyStr.is_space a)
  end.

(** *** For the evaluation of well-formed clauses *)

(** The call returns, it does not raise. *)
Definition returns {A} (r : result A) : bool :=
  match r with
  | Ok _ => true
  | Raise _ => false
  end.


(** The exclusions a clause lists. *)
Definition clause_exclusions (clause : pydict) : list string :=
  match clause !! "clause_content" with
  | Some (PyStr s) => exclusions (extract_clause_info s)
  | _ => []
  end.

(** The exclusions of all clauses, in clause order. *)
Definition all_exclusions (clauses : list pydict) : list string :=
  concat (map clause_exclusions clauses).

(** The entities with another entry for the age. *)
Definition with_age (a : field Z) (qe : query_entities) : query_entities :=
  QueryEntities a (gender qe) (condition qe) (location qe) (policy_duration qe)
    (coverage_type qe).

(** A clause that lists exclusions and states a limit. *)
Definition exclusion_clause : pydict :=
  {[ "clause_id" := PyStr "clause_9.1";
     "clause_content" := PyStr "Coverage limit 20,000. Exclusions: dental, cosmetic" ]}.

(** *** For [get_clause_summary] *)

(** The clause has a content, and it is a string. *)
Definition has_text (clause : pydict) : Prop :=
  exists s, clause !! "clause_content" = Some (PyStr s).

(** The type [extract_clause_info] gives to a clause. *)
Definition type_of_clause (clause : pydict) : string :=
  match clause !! "clause_content" with
  | Some (PyStr s) => clause_type (extract_clause_info s)
  | _ => ""
  end.

(** The number of clauses of type [t]. *)
Definition count_of_type (t : string) (clauses : list pydict) : Z :=
  Z.of_nat (length (List.filter (fun c => String.eqb (type_of_clause c) t) clauses)).

(** The waiting period a clause states, 0 when it states none. *)
Definition clause_waiting (clause : pydict) : Z :=
  match clause !! "clause_content" with
  | Some (PyStr s) => default 0%Z (waiting_period (extract_clause_info s))
  | _ => 0%Z
  end.

(** The numbers of a list other than 0, in order. *)
Definition nonzero (l : list Z) : list Z := List.filter (fun n => negb (n =? 0)%Z) l.

(** The largest number of a list, 0 for the empty list. *)
Definition maximum (l : list Z) : Z := foldr Z.max 0%Z l.

(** Two more clauses of the sample policy. *)
Definition waiting_clause : pydict :=
  {[ "clause_id" := PyStr "clause_3.1";
     "clause_content" := PyStr "A waiting period of 24 months applies." ]}.

(** Entities that pass the age check and the waiting-period check. *)
Definition knee_entities : query_entities :=
  QueryEntities (Given 46%Z) Null (Given "knee surgery") Null (Given "14") Null.

(** *** For the fallback of [LLMService] *)



(** The identifier of a clause, if it has one. *)
Definition clause_id_of (clause : pydict) : option pyval := clause !! "clause_id".

(** A clause without identifier that states no coverage limit. *)
Definition waiting_note : pydict :=
  {[ "clause_content" := PyStr "A waiting period of 24 months applies." ]}.

(** *** For [create_text_chunks] *)

(** A word: not empty, and without white space. *)
Definition is_word (w : string) : Prop :=
  w <> "" /\ forall_chars (fun a => negb (PyStr.is_space a)) w = true.

(** The number of words by which one chunk starts after the other. *)
Definition stride (self : DocumentProcessor.processor) : nat :=
  Z.to_nat (DocumentProcessor.chunk_size self - DocumentProcessor.chunk_overlap self).

(** The words of a chunk. *)
Definition chunk_words (chunk : string) : list string := PyStr.split_ws chunk.

(** The size is above the overlap, and the overlap is not negative. *)
Definition well_sized (self : DocumentProcessor.processor) : Prop :=
  (0 <= DocumentProcessor.chunk_overlap self < DocumentProcessor.chunk_size self)%Z.

(** Quotient of two natural numbers, rounded up. *)
Definition div_up (n d : nat) : nat := (n + d - 1) / d.

(** A processor for chunks of three words that share one. *)
Definition small_processor : DocumentProcessor.processor :=
  DocumentProcessor.Processor 3 1.

(** ** Facts about the pattern matcher *)

Section ReFacts.
Import Re.












Lemma length_append s t : String.length (s +:+ t) = String.length s + String.length t.
Proof. induction s as [|a s IH]; [reflexivity | simpl; now rewrite IH]. Qed.

Lemma take_app n tail :
  take (String.length (n +:+ tail) - String.length tail) (n +:+ tail) = n.
Proof.
  rewrite length_append.
  replace (String.length n + String.length tail - String.length tail)
    with (String.length n) by lia.
  unfold take. induction n as [|a n IH].
  - destruct tail; reflexivity.
  - simpl. now rewrite IH.
Qed.

End ReFacts.


Section Waiting.
Import Re.






End Waiting.

(** ** Properties of [extract_clause_info] *)

Section Extraction.



Lemma digit_is_not_space a : PyStr.is_digit a = true -> PyStr.is_space a = false.
Proof.
  destruct a as [[] [] [] [] [] [] [] []]; intros H; vm_compute in H |- *; congruence.
Qed.

Lemma digit_is_no_sign a :
  PyStr.is_digit a = true -> Ascii.eqb a "-" = false /\ Ascii.eqb a "+" = false.
Proof.
  destruct a as [[] [] [] [] [] [] [] []]; intros H; vm_compute in H |- *;
    split; congruence.
Qed.

Lemma rstrip_digits n : all_digits n = true -> PyStr.rstrip n = n.
Proof.
  induction n as [|a n IH]; simpl; [reflexivity|].
  intros H. apply andb_true_iff in H as [Ha Hn].
  now rewrite (IH Hn), (digit_is_not_space a Ha).
Qed.

Lemma int_body_digits n : forall after acc,
  all_digits n = true -> (n <> "" \/ after = true) ->
  PyStr.int_body after acc n = Some (PyStr.digits_value acc n).
Proof.
  induction n as [|a n IH]; intros after acc Hn Hne; simpl.
  - destruct Hne as [Hne| ->]; [congruence | reflexivity].
  - simpl in Hn. apply andb_true_iff in Hn as [Ha Hn]. rewrite Ha.
    apply IH; [assumption | now right].
Qed.

(** [int(g)] on a captured run of digits never raises and is
    [int_of_digits g]. *)
Lemma to_int_digits n :
  all_digits n = true -> n <> "" -> PyStr.to_int n = Some (int_of_digits n).
Proof.
  intros Hn Hne. unfold PyStr.to_int, PyStr.strip, int_of_digits.
  destruct n as [|a n]; [congruence|].
  pose proof Hn as Hall. simpl in Hn. apply andb_true_iff in Hn as [Ha Hn].
  assert (PyStr.lstrip (String a n) = String a n) as ->.
  { simpl. now rewrite (digit_is_not_space a Ha). }
  rewrite (rstrip_digits _ Hall).
  etransitivity; [|apply (int_body_digits (String a n) false 0%Z Hall); now left].
  clear Hall. destruct a as [[] [] [] [] [] [] [] []];
    first [reflexivity | vm_compute in Ha; discriminate].
Qed.

Lemma clause_type_last_family text :
  clause_type (extract_clause_info text) = last_family_label text.
Proof.
  unfold extract_clause_info, last_family_label, family_matches.
  destruct (first_match exclusions_patterns text);
    destruct (first_match coverage_limit_patterns text);
    destruct (first_match waiting_period_patterns text); reflexivity.
Qed.

Lemma waiting_period_first_match text :
  waiting_period (extract_clause_info text) =
  option_map int_of_digits (first_match waiting_period_patterns text).
Proof.
  unfold extract_clause_info.
  destruct (first_match exclusions_patterns text);
    destruct (first_match coverage_limit_patterns text);
    destruct (first_match waiting_period_patterns text); reflexivity.
Qed.




(** C8, as stated, fails: on the clause of [test_system.py] no
    coverage-limit pattern matches, because "500,000" is followed by
    "rupees", which is no magnitude word, and is preceded by "maximum
    coverage of", not by "coverage limit". *)
Lemma C8_counterexample :
  coverage_limit (extract_clause_info test_clause_content) = None /\
  coverage_limit
    (extract_clause_info
       "Knee surgery is covered...maximum coverage of 500,000 rupees. Waiting period of 12 months...")
  = None.
Proof. vm_compute. split; reflexivity. Qed.

(** C8, amended. The clause of [test_system.py] yields no coverage
    limit; it yields the waiting period 12 and the type waiting_period.
    The same amount is captured, with its commas stripped, once a
    magnitude word follows it or "coverage limit" precedes it. *)
Theorem C8_coverage_limit_of_test_clause :
  extract_clause_info test_clause_content =
    ClauseInfo "waiting_period" (Some 12%Z) None [] [] /\
  coverage_limit
    (extract_clause_info "Knee surgery is covered with a maximum coverage of 500,000 thousand rupees.")
    = Some 500000%Z /\
  coverage_limit
    (extract_clause_info "Knee surgery is covered with a coverage limit 500,000 rupees.")
    = Some 500000%Z /\
  map (fun w => coverage_limit (extract_clause_info ("5,00,000 " +:+ w)))
      ["lakh"; "lac"; "thousand"; "million"; "rupees"]
    = [Some 500000%Z; Some 500000%Z; Some 500000%Z; Some 500000%Z; None].
Proof. vm_compute. repeat split. Qed.

End Extraction.

(** ** Properties of [evaluate_coverage_eligibility] *)

Section Evaluation.

Lemma lower_nonempty s : s <> "" -> PyStr.is_empty (PyStr.lower s) = false.
Proof. destruct s; [congruence | reflexivity]. Qed.

Lemma to_int_nonempty d m : PyStr.to_int d = Some m -> PyStr.is_empty d = false.
Proof. destruct d; [discriminate | reflexivity]. Qed.


Lemma max_coverage_limit_nonneg cs : (0 <= max_coverage_limit cs)%Z.
Proof. induction cs as [|c cs IH]; simpl; lia. Qed.

Lemma scan_clauses_max cs : forall st st',
  (0 <= max_coverage st)%Z ->
  scan_clauses cs st = Ok st' ->
  max_coverage st' = Z.max (max_coverage st) (max_coverage_limit cs).
Proof.
  induction cs as [|c cs IH]; intros st st' Hst H; simpl in *.
  - injection H as <-. lia.
  - unfold getitem, clause_limit in *.
    destruct (c !! "clause_content") as [[ | | |s]|]; simpl in H; try discriminate.
    pose proof (max_coverage_limit_nonneg cs) as Hpos.
    destruct (coverage_limit (extract_clause_info s)) as [n|] eqn:Hn; simpl in *.
    + destruct (n =? 0)%Z eqn:Hz; simpl in H.
      * apply Z.eqb_eq in Hz. subst n.
        destruct (exclusions (extract_clause_info s));
          apply IH in H; simpl in *; try lia.
      * destruct (c !! "clause_id"); simpl in H; [|discriminate].
        destruct (exclusions (extract_clause_info s));
          apply IH in H; simpl in *; try lia.
    + destruct (exclusions (extract_clause_info s));
        apply IH in H; simpl in *; try lia.
Qed.

Lemma evaluate_unfold qe cs :
  evaluate_coverage_eligibility qe cs =
  match age_check (get_field (age qe)) with
  | Some rejected => Ok rejected
  | None =>
      match get_field_default (condition qe) "" with
      | None => Raise AttributeError
      | Some _ =>
          match waiting_check (get_field (policy_duration qe)) (condition_text qe) with
          | Raise e => Raise e
          | Ok (Some rejected) => Ok rejected
          | Ok None =>
              st <- scan_clauses cs (ScanState 0 [] []) ;;
              Ok (coverage_decision (condition_text qe) st)
          end
      end
  end.
Proof.
  unfold evaluate_coverage_eligibility, condition_text.
  destruct (age_check _); [reflexivity|].
  destruct (get_field_default _ _); simpl; [|reflexivity].
  destruct (waiting_check _ _) as [[?|]|]; reflexivity.
Qed.

Lemma age_check_shape o r :
  age_check o = Some r ->
  eligible r = false /\ decision r = "rejected" /\ amount r = None /\
  confidence_score r = Float.zero /\ waiting_period_info r = "".
Proof.
  unfold age_check. destruct o as [a|]; [|discriminate].
  destruct (_ && _); [|discriminate]. intros [= <-]. repeat split.
Qed.

Lemma waiting_check_shape d cond r :
  waiting_check d cond = Ok (Some r) ->
  exists m, r = waiting_rejection m (required_waiting_of cond) cond /\
            (m < required_waiting_of cond)%Z.
Proof.
  unfold waiting_check. destruct d as [d|]; [|discriminate].
  destruct (_ && _); [|discriminate].
  destruct (PyStr.to_int d) as [m|]; [|discriminate].
  destruct (m <? _)%Z eqn:Hlt; [|discriminate].
  intros [= <-]. exists m. split; [reflexivity|]. now apply Z.ltb_lt.
Qed.

(** C1. The evaluation raises on a dictionary it really receives: the
    dump of the entities extracted from a query that names no condition
    maps "condition" to [None], the default of [get] does not apply,
    and [None.lower()] raises AttributeError, whatever the clauses. *)
Theorem C1_no_condition_raises :
  forall matched_clauses,
    evaluate_coverage_eligibility
      (LLMService.dict (LLMService._fallback_entity_extraction "What does my policy cover?"))
      matched_clauses
    = Raise AttributeError.
Proof. intros cs. vm_compute. reflexivity. Qed.

(** The same for every dictionary whose condition is [None] and whose
    age does not reject. *)
Lemma null_condition_raises qe cs :
  condition qe = Null -> age_check (get_field (age qe)) = None ->
  evaluate_coverage_eligibility qe cs = Raise AttributeError.
Proof. intros Hc Ha. rewrite evaluate_unfold, Ha, Hc. reflexivity. Qed.

(** A policy duration that is not an integer literal raises as well. *)
Example duration_in_words_raises :
  evaluate_coverage_eligibility
    (QueryEntities Null Null (Given "knee") Null (Given "six months") Null) []
  = Raise ValueError.
Proof. vm_compute. reflexivity. Qed.

(** C2. Age 0 is present and below the minimum age, yet the test
    [if age:] takes it for a missing age: the evaluation goes on and
    approves. *)
Theorem C2_age_zero_is_approved :
  evaluate_coverage_eligibility
    (QueryEntities (Given 0%Z) Null (Given "knee surgery") Null Null Null)
    [limit_clause]
  = Ok (Evaluation true "approved" (Some 500000%Z)
          "Coverage approved for knee surgery with maximum amount of 500000"
          "" [] Float.f0_8).
Proof. vm_compute. reflexivity. Qed.

(** Every other age outside the range rejects at once, whatever the
    other entries and the clauses. *)
Lemma age_outside_range_rejects qe cs a :
  age qe = Given a -> a <> 0%Z -> (a < 18 \/ 65 < a)%Z ->
  evaluate_coverage_eligibility qe cs =
  Ok (Evaluation false "rejected" None
        ("Age " +:+ PyStr.of_int a +:+ " is outside the eligible range (18-65 years)")
        "" [] Float.zero).
Proof.
  intros Ha Hnz Hout. unfold evaluate_coverage_eligibility, age_check.
  rewrite Ha. simpl.
  assert ((a =? 0)%Z = false) as -> by now apply Z.eqb_neq.
  assert (((a <? min_age) || (a >? max_age))%Z = true) as ->.
  { unfold min_age, max_age. apply orb_true_iff.
    destruct Hout; [left; now apply Z.ltb_lt | right; apply Z.gtb_lt; lia]. }
  reflexivity.
Qed.

Example age_17_rejects qe cs :
  age qe = Given 17%Z ->
  evaluate_coverage_eligibility qe cs =
  Ok (Evaluation false "rejected" None
        "Age 17 is outside the eligible range (18-65 years)" "" [] Float.zero).
Proof. intros H. rewrite (age_outside_range_rejects qe cs 17%Z H); [reflexivity|lia|lia]. Qed.

Example age_66_rejects qe cs :
  age qe = Given 66%Z ->
  evaluate_coverage_eligibility qe cs =
  Ok (Evaluation false "rejected" None
        "Age 66 is outside the eligible range (18-65 years)" "" [] Float.zero).
Proof. intros H. rewrite (age_outside_range_rejects qe cs 66%Z H); [reflexivity|lia|lia]. Qed.


(** With a non-empty condition and an integer duration, the evaluation
    is decided by the comparison of the months with the required
    waiting period. *)
Lemma evaluate_waiting_branch qe cs c d m :
  age_check (get_field (age qe)) = None ->
  condition qe = Given c -> c <> "" ->
  policy_duration qe = Given d -> PyStr.to_int d = Some m ->
  evaluate_coverage_eligibility qe cs =
  if (m <? required_waiting_of (PyStr.lower c))%Z
  then Ok (waiting_rejection m (required_waiting_of (PyStr.lower c)) (PyStr.lower c))
  else (st <- scan_clauses cs (ScanState 0 [] []) ;;
        Ok (coverage_decision (PyStr.lower c) st)).
Proof.
  intros Hage Hc Hne Hd Hm.
  rewrite evaluate_unfold, Hage. unfold condition_text. rewrite Hc, Hd. simpl.
  unfold waiting_check. rewrite (to_int_nonempty d m Hm), (lower_nonempty c Hne), Hm.
  simpl. destruct (m <? _)%Z; reflexivity.
Qed.



Example diabetes_30_passes_on cs :
  evaluate_coverage_eligibility
    (QueryEntities Absent Absent (Given "diabetes") Absent (Given "30") Absent) cs
  = (st <- scan_clauses cs (ScanState 0 [] []) ;; Ok (coverage_decision "diabetes" st)).
Proof.
  rewrite (evaluate_waiting_branch _ cs "diabetes" "30" 30%Z);
    first [reflexivity | discriminate].
Qed.

(** C4. On the query of [test_system.py] the duration pattern matches
    the age phrase "46-year-old" first, so the policy duration is "46",
    and the keyword list puts "surgery" before "knee", so the condition
    is "surgery"; the general waiting period of 3 months is met and the
    evaluation is the decision on the matched clauses, never a
    waiting-period rejection. *)
Theorem C4_fallback_on_test_query :
  LLMService._fallback_entity_extraction test_query =
    LLMService.Entities (Some 46%Z) (Some "male") (Some "surgery") (Some "Pune")
      (Some "46") None /\
  required_waiting_of "surgery" = 3%Z /\
  forall matched_clauses,
    LLMService.fallback_evaluation test_query matched_clauses =
    (st <- scan_clauses matched_clauses (ScanState 0 [] []) ;;
     Ok (coverage_decision "surgery" st)).
Proof.
  split; [vm_compute; reflexivity|]. split; [reflexivity|].
  intros cs. unfold LLMService.fallback_evaluation.
  rewrite (evaluate_waiting_branch _ cs "surgery" "46" 46%Z);
    first [reflexivity | discriminate | vm_compute; reflexivity].
Qed.

(** C7, as stated, fails: the clause states a limit of 500000, which
    is greater than 0, and the evaluation still rejects, because the
    age check returns before the clauses are read. *)
Lemma C7_counterexample :
  let qe := QueryEntities (Given 17%Z) Absent (Given "knee surgery") Absent Absent Absent in
  (0 < max_coverage_limit [limit_clause])%Z /\
  evaluate_coverage_eligibility qe [limit_clause] =
  Ok (Evaluation false "rejected" None
        "Age 17 is outside the eligible range (18-65 years)" "" [] Float.zero).
Proof. vm_compute. split; reflexivity. Qed.

(** C7, amended. In every evaluation the function returns, an approved
    decision is eligible, carries as amount the maximum coverage limit
    stated by the matched clauses and has confidence 0.8; the decision
    is approved exactly when neither the age check nor the
    waiting-period check rejects and that maximum is greater than 0. *)
Theorem C7_approved_amount qe cs ev :
  evaluate_coverage_eligibility qe cs = Ok ev ->
  (decision ev = "approved" ->
   eligible ev = true /\ amount ev = Some (max_coverage_limit cs) /\
   confidence_score ev = Float.f0_8) /\
  (decision ev = "approved" <->
   short_circuits qe = false /\ (0 < max_coverage_limit cs)%Z).
Proof.
  rewrite evaluate_unfold. unfold short_circuits.
  destruct (age_check _) as [r|] eqn:Hage.
  { intros [= <-]. destruct (age_check_shape _ _ Hage) as (_ & Hd & _).
    rewrite Hd. split; [discriminate|]. split; [discriminate|]. intros [? _]. discriminate. }
  destruct (get_field_default _ _); [|discriminate].
  destruct (waiting_check _ _) as [[r|]|] eqn:Hw; [| |discriminate].
  { intros [= <-]. destruct (waiting_check_shape _ _ _ Hw) as (m & -> & _).
    simpl. split; [discriminate|]. split; [discriminate|]. intros [? _]. discriminate. }
  destruct (scan_clauses cs _) as [st|] eqn:Hscan; simpl; [|discriminate].
  intros [= <-]. apply scan_clauses_max in Hscan; [|simpl; lia]. simpl in Hscan.
  pose proof (max_coverage_limit_nonneg cs) as Hpos.
  rewrite Z.max_r in Hscan by exact Hpos.
  unfold coverage_decision. rewrite Hscan.
  destruct (max_coverage_limit cs >? 0)%Z eqn:Hgt; simpl.
  - apply Z.gtb_lt in Hgt. repeat split; auto.
  - assert (~ (0 < max_coverage_limit cs)%Z).
    { intros Hlt. apply Z.gtb_lt in Hlt. congruence. }
    split; [discriminate|]. split; [discriminate|]. tauto.
Qed.

Lemma C7_approved_amount_witness :
  let qe := QueryEntities (Given 46%Z) Null (Given "knee surgery") Null (Given "14") Null in
  exists ev,
    evaluate_coverage_eligibility qe [limit_clause] = Ok ev /\
    decision ev = "approved" /\ eligible ev = true /\ amount ev = Some 500000%Z /\
    confidence_score ev = Float.f0_8.
Proof.
  intros qe. eexists. split; [vm_compute; reflexivity|]. split; [reflexivity|].
  exact (proj1 (C7_approved_amount qe [limit_clause] _ eq_refl) eq_refl).
Defined.




End Evaluation.

(** ** Facts about the binary64 numbers *)

Section FloatOrder.

(** The literals of the source, as the hexadecimal floats
    0x1.999999999999ap-4, 0x1.999999999999ap-3, 0x1.3333333333333p-2,
    0x1.999999999999ap-1 and 0x1p+0. *)
Example literal_values :
  Float.f0_1 = S754_finite false 7205759403792794 (-56) /\
  Float.f0_2 = S754_finite false 7205759403792794 (-55) /\
  Float.f0_3 = S754_finite false 5404319552844595 (-54) /\
  Float.f0_8 = S754_finite false 7205759403792794 (-53) /\
  Float.one = S754_finite false 4503599627370496 (-52).
Proof. repeat split. Qed.

(** Addition rounds: three bonuses of 0.3 make 0.8999999999999999,
    which is below 0.9. *)
Example three_bonuses :
  Float.add (Float.add Float.f0_3 Float.f0_3) Float.f0_3
    = S754_finite false 8106479329266892 (-53) /\
  Float.ltb (Float.add (Float.add Float.f0_3 Float.f0_3) Float.f0_3) (Float.decimal 9 10)
    = true.
Proof. vm_compute. split; reflexivity. Qed.


Lemma ltb_not_nan x y : Float.ltb x y = true -> x <> S754_nan /\ y <> S754_nan.
Proof.
  unfold Float.ltb, SFltb.
  destruct x, y; simpl; try discriminate; intros _; split; discriminate.
Qed.

(** [x < y] is the negation of [y <= x] on numbers: if [y] is not
    above [x] and [z] is not above [y], then [z] is not above [x]. *)
Ltac order_cases :=
  repeat match goal with
         | |- context [Z.compare ?a ?b] => destruct (Z.compare_spec a b)
         | |- context [Pos.compare_cont Eq ?a ?b] =>
             let H := fresh "H" in
             destruct (Pos.compare_cont Eq a b) eqn:H;
             [ apply Pos.compare_eq_iff in H
             | change (a < b)%positive in H
             | change (a > b)%positive in H ]
         end;
  simpl; intros;
  repeat match goal with
         | H : Pos.compare ?a ?b = Lt |- _ => change (a < b)%positive in H
         | H : Pos.compare ?a ?b = Gt |- _ => change (a > b)%positive in H
         end;
  subst; try reflexivity; try discriminate; try lia.

Lemma ltb_neg_trans x y z :
  y <> S754_nan ->
  Float.ltb x y = false -> Float.ltb y z = false -> Float.ltb x z = false.
Proof.
  unfold Float.ltb, SFltb. intros Hy.
  destruct x as [sx|sx| |sx mx ex], y as [sy|sy| |sy my ey], z as [sz|sz| |sz mz ez];
    try congruence; simpl; try reflexivity;
    repeat match goal with s : bool |- _ => destruct s end; simpl;
    try reflexivity; try discriminate;
    order_cases.
Qed.

Lemma ltb_asym x y : Float.ltb x y = true -> Float.ltb y x = false.
Proof.
  unfold Float.ltb, SFltb.
  destruct x as [sx|sx| |sx mx ex], y as [sy|sy| |sy my ey];
    simpl; try reflexivity; try discriminate;
    repeat match goal with s : bool |- _ => destruct s end; simpl;
    try reflexivity; try discriminate;
    order_cases.
Qed.
Lemma iter_pos_nat {A} (f : A -> A) p : forall x,
  SpecFloat.iter_pos f p x = Nat.iter (Pos.to_nat p) f x.
Proof.
  induction p as [p IH|p IH|]; intros x.
  - change (SpecFloat.iter_pos f p~1 x)
      with (SpecFloat.iter_pos f p (SpecFloat.iter_pos f p (f x))).
    rewrite !IH, Pos2Nat.inj_xI, Nat.iter_succ_r.
    replace (2 * Pos.to_nat p)%nat with (Pos.to_nat p + Pos.to_nat p)%nat by lia.
    now rewrite Nat.iter_add.
  - change (SpecFloat.iter_pos f p~0 x)
      with (SpecFloat.iter_pos f p (SpecFloat.iter_pos f p x)).
    rewrite !IH, Pos2Nat.inj_xO.
    replace (2 * Pos.to_nat p)%nat with (Pos.to_nat p + Pos.to_nat p)%nat by lia.
    now rewrite Nat.iter_add.
  - reflexivity.
Qed.

(** Fewer right shifts than the mantissa has digits leave a positive
    mantissa. *)
Lemma shr_1_iter_positive k : forall q r s,
  (k < Pos.to_nat (digits2_pos q))%nat ->
  exists q' r' s', Nat.iter k shr_1 (Build_shr_record (Zpos q) r s)
                   = Build_shr_record (Zpos q') r' s'.
Proof.
  induction k as [|k IH]; intros q r s Hk.
  - simpl. eauto.
  - rewrite Nat.iter_succ_r.
    destruct q as [p|p|]; simpl in Hk |- *.
    + apply IH. lia.
    + apply IH. lia.
    + lia.
Qed.

Lemma shr_positive q r s e n :
  (n < Zpos (digits2_pos q))%Z ->
  exists q' r' s' e', shr (Build_shr_record (Zpos q) r s) e n
                      = (Build_shr_record (Zpos q') r' s', e') /\ (e <= e')%Z.
Proof.
  intros Hn. unfold shr. destruct n as [|p|p].
  - exists q, r, s, e. split; [reflexivity|lia].
  - rewrite iter_pos_nat.
    destruct (shr_1_iter_positive (Pos.to_nat p) q r s) as (q' & r' & s' & ->); [lia|].
    exists q', r', s', (e + Zpos p)%Z. split; [reflexivity|lia].
  - exists q, r, s, e. split; [reflexivity|lia].
Qed.

Lemma shr_fexp_positive q e l :
  (-1074 <= e)%Z ->
  exists q' r' s' e', shr_fexp 53 1024 (Zpos q) e l
                      = (Build_shr_record (Zpos q') r' s', e') /\ (e <= e')%Z.
Proof.
  intros He. unfold shr_fexp.
  assert (Hn : (fexp 53 1024 (Zdigits2 (Zpos q) + e) - e < Zpos (digits2_pos q))%Z).
  { unfold fexp, emin. simpl Zdigits2. lia. }
  destruct l as [|[]]; simpl shr_record_of_loc; now apply shr_positive.
Qed.

Lemma round_nearest_even_positive q l :
  exists q', round_nearest_even (Zpos q) l = Zpos q'.
Proof.
  destruct l as [|[]]; unfold round_nearest_even;
    try destruct (Z.even (Zpos q)); eexists; reflexivity.
Qed.

(** Rounding a positive mantissa gives a positive number or +infinity. *)
Lemma binary_round_aux_positive q e l :
  (-1074 <= e)%Z ->
  (exists m e', binary_round_aux 53 1024 false (Zpos q) e l = S754_finite false m e') \/
  binary_round_aux 53 1024 false (Zpos q) e l = S754_infinity false.
Proof.
  intros He. unfold binary_round_aux.
  destruct (shr_fexp_positive q e l He) as (q1 & r1 & s1 & e1 & -> & He1).
  simpl shr_m.
  destruct (round_nearest_even_positive q1 (loc_of_shr_record (Build_shr_record (Zpos q1) r1 s1)))
    as (q2 & ->).
  destruct (shr_fexp_positive q2 e1 loc_Exact) as (q3 & r3 & s3 & e3 & -> & He3); [lia|].
  simpl shr_m. destruct (Z.leb _ _); eauto.
Qed.

Lemma of_Z_positive p :
  (exists m e, Float.of_Z (Zpos p) = S754_finite false m e) \/
  Float.of_Z (Zpos p) = S754_infinity false.
Proof.
  unfold Float.of_Z, binary_normalize, binary_round, Float.prec, Float.emax.
  destruct (shl_align p 0 _) as [mz ez] eqn:Hal.
  apply binary_round_aux_positive.
  unfold shl_align in Hal.
  destruct (fexp 53 1024 (Zpos (digits2_pos p) + 0) - 0)%Z eqn:Hd;
    injection Hal as <- <-; try lia.
  unfold fexp, emin in *. lia.
Qed.

(** No common word gives the share 0 of a non-empty query. *)
Lemma ratio_zero n : n <> 0%nat -> ratio 0 n = Float.zero.
Proof.
  intros Hn. unfold ratio. destruct n as [|n]; [congruence|].
  change (Z.of_nat 0) with 0%Z.
  change (Float.of_Z 0) with (S754_zero false).
  destruct (of_Z_positive (Pos.of_succ_nat n)) as [(m & e & H)|H];
    change (Z.of_nat (S n)) with (Zpos (Pos.of_succ_nat n)); rewrite H; reflexivity.
Qed.

End FloatOrder.

(** ** Properties of [match_clauses_to_query] *)

Section MatcherFacts.

Lemma clause_content_lower_text clause :
  content_is_text clause -> clause_content_lower clause = Ok (content_lower clause).
Proof.
  unfold content_is_text, clause_content_lower, content_lower, get.
  destruct (clause !! "clause_content") as [[| | |s]|]; simpl; tauto.
Qed.

Lemma add_bonuses_count terms bonus q c : forall score,
  add_bonuses terms bonus q c score = add_times (length (shared terms q c)) bonus score.
Proof.
  unfold add_bonuses, add_times, shared.
  induction terms as [|t terms IH]; intros score; simpl; [reflexivity|].
  destruct (PyStr.contains t q && PyStr.contains t c); simpl.
  - rewrite IH. symmetry. apply (Nat.iter_succ_r _ (fun x => Float.add x bonus)).
  - apply IH.
Qed.

Lemma base_score_code q c :
  (if Nat.eqb (size (word_set q ∩ word_set c)) 0 then Float.zero
   else ratio (size (word_set q ∩ word_set c)) (size (word_set q)))
  = base_score q c.
Proof.
  unfold base_score.
  assert (size (word_set q ∩ word_set c) <= size (word_set q)) as Hle.
  { apply subseteq_size. intros w Hw. now apply elem_of_intersection in Hw as [Hw _]. }
  destruct (Nat.eqb_spec (size (word_set q)) 0) as [Hq|Hq].
  - assert (size (word_set q ∩ word_set c) = 0) as -> by lia. reflexivity.
  - destruct (Nat.eqb_spec (size (word_set q ∩ word_set c)) 0) as [Hc|Hc];
      [|reflexivity].
    rewrite Hc. symmetry. now apply ratio_zero.
Qed.

Lemma relevance_score_spec q c : relevance q c = score_spec q c.
Proof.
  unfold relevance, score_spec. rewrite !add_bonuses_count. cbv zeta.
  now rewrite base_score_code.
Qed.

Lemma collect_kept query clauses :
  Forall content_is_text clauses ->
  collect (PyStr.lower query) clauses = Ok (kept query clauses).
Proof.
  induction clauses as [|clause clauses IH]; intros H; [reflexivity|].
  apply Forall_cons in H as [Htext Hrest].
  simpl. rewrite (clause_content_lower_text _ Htext). simpl. rewrite (IH Hrest). simpl.
  unfold kept. simpl. unfold clause_score at 3. rewrite <- relevance_score_spec.
  destruct (Float.ltb _ _); [|reflexivity].
  simpl. unfold rescored at 2, clause_score. now rewrite relevance_score_spec.
Qed.

Lemma sort_key_rescored query clause :
  sort_key (rescored query clause) = Float.min (clause_score query clause) Float.one.
Proof. unfold sort_key, rescored, get. now rewrite lookup_insert_eq. Qed.

Lemma kept_ordered query clauses : Forall ordered_key (kept query clauses).
Proof.
  unfold kept. apply Forall_map. apply List.Forall_forall. intros clause Hin.
  apply filter_In in Hin as [_ Hlt].
  unfold ordered_key. rewrite sort_key_rescored. unfold Float.min.
  destruct (Float.ltb Float.one _); [discriminate|].
  now apply ltb_not_nan in Hlt.
Qed.

Lemma insert_desc_perm x l : Permutation (insert_desc x l) (x :: l).
Proof.
  induction l as [|y l IH]; simpl; [reflexivity|].
  destruct (Float.ltb _ _); [|reflexivity].
  rewrite IH. apply perm_swap.
Qed.

Lemma sort_desc_perm l : Permutation (sort_desc l) l.
Proof.
  induction l as [|x l IH]; simpl; [reflexivity|].
  rewrite insert_desc_perm. now constructor.
Qed.

Lemma insert_desc_sorted x l :
  Forall ordered_key l ->
  StronglySorted descending l -> StronglySorted descending (insert_desc x l).
Proof.
  induction l as [|y l IH]; intros Hord Hs; simpl.
  - repeat constructor.
  - inversion Hs as [|? ? Hsl Hy]; subst. inversion Hord as [|? ? Hky Hordl]; subst.
    destruct (Float.ltb (sort_key x) (sort_key y)) eqn:Hlt.
    + constructor; [now apply IH|].
      rewrite insert_desc_perm. constructor; [|assumption].
      unfold descending. now apply ltb_asym.
    + constructor; [assumption|]. constructor; [exact Hlt|].
      eapply List.Forall_impl; [|exact Hy]. intros z Hz. unfold descending in *.
      now apply (ltb_neg_trans _ (sort_key y)).
Qed.

Lemma sort_desc_sorted l : Forall ordered_key l -> StronglySorted descending (sort_desc l).
Proof.
  induction 1 as [|x l Hx Hl IH]; simpl; [constructor|].
  apply insert_desc_sorted; [|assumption].
  now rewrite sort_desc_perm.
Qed.



(** With well-formed clauses the matcher returns the kept clauses,
    stably sorted by descending score. *)
Lemma match_clauses_sorted_kept query clauses :
  Forall content_is_text clauses ->
  match_clauses_to_query query clauses = Ok (sort_desc (kept query clauses)).
Proof.
  intros H. unfold match_clauses_to_query. now rewrite (collect_kept query clauses H).
Qed.


Lemma sample_clauses_are_text : Forall content_is_text sample_clauses.
Proof. repeat constructor. Qed.



(** The scores of the sample: 1.0 after the clamp, and twice 0.55. *)
Example sample_scores :
  option_map (map (fun clause : pydict => clause !! "relevance_score"))
    (match match_clauses_to_query "knee surgery in pune" sample_clauses with
     | Ok out => Some out
     | Raise _ => None
     end)
  = Some [Some (PyFloat Float.one);
          Some (PyFloat (Float.add (ratio 1 4) Float.f0_3));
          Some (PyFloat (Float.add (ratio 1 4) Float.f0_3))].
Proof. vm_compute. reflexivity. Qed.

(** A clause that shares no word and no term with the query scores 0
    and is left out. *)
Example unrelated_clause_is_dropped :
  clause_score "knee surgery in pune" clause_a = Float.zero /\
  match_clauses_to_query "knee surgery in pune" [clause_a] = Ok [].
Proof. vm_compute. split; reflexivity. Qed.

(** A clause whose content is not a string makes the matcher raise. *)
Example content_none_raises :
  match_clauses_to_query "knee surgery"
    [{[ "clause_id" := PyStr "x"; "clause_content" := PyNone ]}]
  = Raise AttributeError.
Proof. vm_compute. reflexivity. Qed.

(** C10. Every clause of the result is a clause of the input with the
    key "relevance_score" set to the clamped score; all other keys map
    to what they mapped to in the input. *)
Theorem C10_only_relevance_score_changes query clauses :
  Forall content_is_text clauses ->
  exists out,
    match_clauses_to_query query clauses = Ok out /\
    forall clause', In clause' out ->
      exists clause,
        In clause clauses /\
        (forall key, key <> "relevance_score" -> clause' !! key = clause !! key) /\
        clause' !! "relevance_score" =
          Some (PyFloat (Float.min
                           (relevance (PyStr.lower query) (content_lower clause))
                           Float.one)).
Proof.
  intros H. exists (sort_desc (kept query clauses)).
  split; [now apply match_clauses_sorted_kept|].
  intros clause' Hin.
  apply (Permutation_in _ (sort_desc_perm _)) in Hin.
  unfold kept in Hin. apply in_map_iff in Hin as (clause & <- & Hin).
  apply filter_In in Hin as [Hin _].
  exists clause. split; [exact Hin|]. unfold rescored. split.
  - intros key Hkey. now rewrite lookup_insert_ne.
  - rewrite lookup_insert_eq, relevance_score_spec. reflexivity.
Qed.

Lemma C10_only_relevance_score_changes_witness :
  Forall content_is_text sample_clauses /\
  exists out,
    match_clauses_to_query "knee surgery in pune" sample_clauses = Ok out /\
    forall clause', In clause' out ->
      exists clause,
        In clause sample_clauses /\
        clause' !! "clause_id" = clause !! "clause_id" /\
        clause' !! "clause_title" = clause !! "clause_title" /\
        clause' !! "clause_content" = clause !! "clause_content".
Proof.
  split; [exact sample_clauses_are_text|].
  destruct (C10_only_relevance_score_changes "knee surgery in pune" sample_clauses
              sample_clauses_are_text) as (out & Hok & Hframe).
  exists out. split; [exact Hok|].
  intros clause' Hin. destruct (Hframe clause' Hin) as (clause & Hc & Hkeys & _).
  exists clause. split; [exact Hc|].
  repeat split; apply Hkeys; discriminate.
Defined.

End MatcherFacts.

(** ** Soundness of the pattern matcher *)

Section ReSound.
Import Re.

Lemma append_assoc (a b c : string) : (a +:+ b) +:+ c = a +:+ (b +:+ c).
Proof.
  induction a as [|x a IH]; [reflexivity|].
  change (String x ((a +:+ b) +:+ c) = String x (a +:+ (b +:+ c))). f_equal. exact IH.
Qed.

Lemma append_nil_r (a : string) : a +:+ "" = a.
Proof.
  induction a as [|x a IH]; [reflexivity|].
  change (String x (a +:+ "") = String x a). f_equal. exact IH.
Qed.

Lemma infix_refl_prefix w t : infix w (w +:+ t).
Proof. exists "", t. reflexivity. Qed.

Lemma infix_app_l g w s : infix g s -> infix g (w +:+ s).
Proof. intros (a & b & ->). exists (w +:+ a), b. now rewrite append_assoc. Qed.

Lemma star_loop_sound r : sound r (run r) ->
  forall fuel c k x,
    star_loop (run r) k fuel c = Some x ->
    exists c1, k c1 = Some x /\ step_ok (Star r) c c1.
Proof.
  intros Hr. induction fuel as [|fuel IH]; intros c k x H; simpl in H.
  - exists c. split; [exact H|]. exists "". repeat split; [constructor | now left].
  - unfold orelse in H.
    destruct (run r c _) as [y|] eqn:Hbody.
    + injection H as ->.
      apply Hr in Hbody as (c1 & Hk & w1 & Hrest1 & Hl1 & Hg1).
      destruct (progress c c1); [|discriminate].
      apply IH in Hk as (c2 & Hk2 & w2 & Hrest2 & Hl2 & Hg2).
      exists c2. split; [exact Hk2|]. exists (w1 +:+ w2).
      split; [now rewrite Hrest1, Hrest2, append_assoc|].
      split; [now constructor|].
      destruct Hg2 as [[Hsame _]|(g & Hg & Hcap & Hin)].
      * destruct Hg1 as [[Hsame1 _]|(g & Hg & Hcap & Hin)].
        -- left. split; [congruence | reflexivity].
        -- right. exists g. repeat split; [congruence | exact Hcap | exact Hin].
      * right. exists g. repeat split; [exact Hg | exact Hcap |].
        rewrite Hrest1. now apply infix_app_l.
    + exists c. split; [exact H|]. exists "". repeat split; [constructor | now left].
Qed.

Lemma lazy_loop_sound r : sound r (run r) ->
  forall fuel c k x,
    lazy_loop (run r) k fuel c = Some x ->
    exists c1, k c1 = Some x /\ step_ok (LazyStar r) c c1.
Proof.
  intros Hr. induction fuel as [|fuel IH]; intros c k x H; simpl in H.
  - exists c. split; [exact H|]. exists "". repeat split; [constructor | now left].
  - unfold orelse in H.
    destruct (k c) as [y|] eqn:Hkc.
    + injection H as ->. exists c. split; [exact Hkc|].
      exists "". repeat split; [constructor | now left].
    + apply Hr in H as (c1 & Hk & w1 & Hrest1 & Hl1 & Hg1).
      destruct (progress c c1); [|discriminate].
      apply IH in Hk as (c2 & Hk2 & w2 & Hrest2 & Hl2 & Hg2).
      exists c2. split; [exact Hk2|]. exists (w1 +:+ w2).
      split; [now rewrite Hrest1, Hrest2, append_assoc|].
      split; [now constructor|].
      destruct Hg2 as [[Hsame _]|(g & Hg & Hcap & Hin)].
      * destruct Hg1 as [[Hsame1 _]|(g & Hg & Hcap & Hin)].
        -- left. split; [congruence | reflexivity].
        -- right. exists g. repeat split; [congruence | exact Hcap | exact Hin].
      * right. exists g. repeat split; [exact Hg | exact Hcap |].
        rewrite Hrest1. now apply infix_app_l.
Qed.

(** Every successful run reads a text of the pattern's language and
    leaves in the group, when it closes it, a text of the group's
    language that occurs in the input. *)
Lemma run_sound r : sound r (run r).
Proof.
  induction r as [|p|r1 IH1 r2 IH2|r1 IH1 r2 IH2|r1 IH1|r1 IH1|r1 IH1|r1 IH1| |];
    intros c k x H.
  - exists c. split; [exact H|]. exists "". repeat split; [constructor | now left].
  - simpl in H. destruct c as [b s g]. simpl in *.
    destruct s as [|a t]; [discriminate|].
    destruct (p a) eqn:Hp; [|discriminate].
    eexists. split; [exact H|]. exists (String a ""). simpl.
    repeat split; [now constructor | now left].
  - simpl in H. apply IH1 in H as (c1 & Hk1 & w1 & Hrest1 & Hl1 & Hg1).
    apply IH2 in Hk1 as (c2 & Hk2 & w2 & Hrest2 & Hl2 & Hg2).
    exists c2. split; [exact Hk2|]. exists (w1 +:+ w2).
    split; [now rewrite Hrest1, Hrest2, append_assoc|].
    split; [now constructor|]. simpl.
    destruct Hg2 as [[Hsame Hs2]|(g & Hg & Hcap & Hin)].
    + destruct Hg1 as [[Hsame1 Hs1]|(g & Hg & Hcap & Hin)].
      * left. split; [congruence | now rewrite Hs1, Hs2].
      * right. exists g. repeat split; [congruence | now left | exact Hin].
    + right. exists g. repeat split; [exact Hg | now right |].
      rewrite Hrest1. now apply infix_app_l.
  - simpl in H. unfold orelse in H.
    destruct (run r1 c k) as [y|] eqn:H1.
    + injection H as ->. apply IH1 in H1 as (c1 & Hk1 & w1 & Hrest1 & Hl1 & Hg1).
      exists c1. split; [exact Hk1|]. exists w1. split; [exact Hrest1|].
      split; [now apply lang_Alt_l|]. simpl.
      destruct Hg1 as [[Hsame Hs]|(g & Hg & Hcap & Hin)].
      * left. split; [exact Hsame | now rewrite Hs].
      * right. exists g. repeat split; [exact Hg | now left | exact Hin].
    + apply IH2 in H as (c1 & Hk1 & w1 & Hrest1 & Hl1 & Hg1).
      exists c1. split; [exact Hk1|]. exists w1. split; [exact Hrest1|].
      split; [now apply lang_Alt_r|]. simpl.
      destruct Hg1 as [[Hsame Hs]|(g & Hg & Hcap & Hin)].
      * left. split; [exact Hsame | rewrite Hs; apply andb_false_r].
      * right. exists g. repeat split; [exact Hg | now right | exact Hin].
  - simpl in H. now apply (star_loop_sound r1 IH1) in H.
  - simpl in H. now apply (lazy_loop_sound r1 IH1) in H.
  - simpl in H. apply IH1 in H as (c1 & Hk1 & w1 & Hrest1 & Hl1 & _).
    eexists. split; [exact Hk1|]. exists w1. simpl. split; [exact Hrest1|].
    split; [now constructor|]. right.
    exists w1. split; [|split; [exact Hl1 | rewrite Hrest1; apply infix_refl_prefix]].
    f_equal. rewrite Hrest1. apply take_app.
  - simpl in H. destruct (run r1 c Some); [|discriminate].
    exists c. split; [exact H|]. exists "". repeat split; [constructor | now left].
  - simpl in H. destruct (at_eol (rest c)); [|discriminate].
    exists c. split; [exact H|]. exists "". repeat split; [constructor | now left].
  - simpl in H. destruct (xorb _ _); [|discriminate].
    exists c. split; [exact H|]. exists "". repeat split; [constructor | now left].
Qed.

(** [re.search]: the group of a pattern that always closes it holds a
    text of the group's language, and that text occurs in the input. *)
Lemma search_from_sound r : sets_group r = true ->
  forall s prev g,
    search_from r prev s = Some g -> captured r g /\ infix g s.
Proof.
  intros Hsets. induction s as [|a s IH]; intros prev g H; simpl in H.
  - destruct (run r _ Some) as [c|] eqn:Hrun; [|discriminate].
    apply run_sound in Hrun as (c1 & [= <-] & w & Hrest & _ & Hg).
    destruct Hg as [[_ Hs]|(g' & Hg' & Hcap & Hin)]; [congruence|].
    rewrite Hg' in H. injection H as <-. split; assumption.
  - destruct (run r _ Some) as [c|] eqn:Hrun.
    + apply run_sound in Hrun as (c1 & [= <-] & w & Hrest & _ & Hg).
      destruct Hg as [[_ Hs]|(g' & Hg' & Hcap & Hin)]; [congruence|].
      rewrite Hg' in H. injection H as <-. split; assumption.
    + apply IH in H as [Hcap Hin]. split; [exact Hcap|].
      now apply (infix_app_l g (String a "")).
Qed.

Lemma search_sound r s g :
  sets_group r = true -> search r s = Some g -> captured r g /\ infix g s.
Proof. intros Hs. apply search_from_sound, Hs. Qed.

End ReSound.

(** ** The texts a pattern reads *)

Section LangFacts.
Import Re.

Lemma forall_chars_app p a b :
  forall_chars p (a +:+ b) = forall_chars p a && forall_chars p b.
Proof.
  induction a as [|x a IH]; [reflexivity|].
  change (String x a +:+ b) with (String x (a +:+ b)). simpl.
  now rewrite IH, andb_assoc.
Qed.

Lemma forall_chars_impl (p q : ascii -> bool) s :
  (forall a, p a = true -> q a = true) ->
  forall_chars p s = true -> forall_chars q s = true.
Proof.
  intros Hpq. induction s as [|a s IH]; simpl; [reflexivity|].
  intros H. apply andb_true_iff in H as [Ha Hs].
  now rewrite (Hpq a Ha), (IH Hs).
Qed.

Lemma all_digits_forall_chars s : all_digits s = forall_chars PyStr.is_digit s.
Proof. induction s as [|a s IH]; simpl; [reflexivity | now rewrite IH]. Qed.

(** A text of the language consists of characters the pattern can
    read, and has at least the pattern's minimal length. *)
Lemma lang_chars r w :
  lang r w -> forall_chars (accepts r) w = true /\ min_len r <= String.length w.
Proof.
  induction 1 as [|p a Hp|r1 r2 w1 w2 _ [IH1 L1] _ [IH2 L2]|r1 r2 w _ [IH L]
                  |r1 r2 w _ [IH L]|r|r w1 w2 _ [IH1 L1] _ [IH2 L2]
                  |r|r w1 w2 _ [IH1 L1] _ [IH2 L2]|r w _ [IH L]|r| |];
    simpl; try (split; [reflexivity | lia]).
  - rewrite Hp. split; [reflexivity | lia].
  - rewrite forall_chars_app, length_append. split; [|lia].
    apply andb_true_iff. split.
    + eapply forall_chars_impl; [|exact IH1]. intros a ->. reflexivity.
    + eapply forall_chars_impl; [|exact IH2]. intros a ->. apply orb_true_r.
  - split; [|lia]. eapply forall_chars_impl; [|exact IH]. intros a ->. reflexivity.
  - split; [|lia]. eapply forall_chars_impl; [|exact IH]. intros a ->. apply orb_true_r.
  - rewrite forall_chars_app. split; [|lia].
    apply andb_true_iff. split; [exact IH1 | exact IH2].
  - rewrite forall_chars_app. split; [|lia].
    apply andb_true_iff. split; [exact IH1 | exact IH2].
  - split; [exact IH | exact L].
Qed.

Lemma infix_contains g s : infix g s -> PyStr.contains g s = true.
Proof.
  intros (a & b & ->). induction a as [|x a IH].
  - change ("" +:+ (g +:+ b)) with (g +:+ b).
    assert (PyStr.starts_with g (g +:+ b) = true) as Hsw.
    { clear. induction g as [|y g IH]; [reflexivity|].
      change (String y g +:+ b) with (String y (g +:+ b)). simpl.
      now rewrite Ascii.eqb_refl, IH. }
    destruct (g +:+ b); simpl; simpl in Hsw; now rewrite Hsw.
  - change (String x a +:+ (g +:+ b)) with (String x (a +:+ (g +:+ b))).
    simpl. rewrite IH. apply orb_true_r.
Qed.

(** The group of a number pattern: a non-empty run of digits. *)
Lemma lang_plus_digit g :
  lang (plus digit) g -> all_digits g = true /\ g <> "".
Proof.
  intros H. apply lang_chars in H as [Hc Hl]. split.
  - rewrite all_digits_forall_chars. eapply forall_chars_impl; [|exact Hc].
    intros a. simpl. now rewrite orb_diag.
  - intros ->. simpl in Hl. lia.
Qed.



End LangFacts.

(** ** More properties of [extract_clause_info] *)

Section ExtractionMore.
Import Re.

Lemma digits_value_nonneg s : forall acc, (0 <= acc)%Z -> (0 <= PyStr.digits_value acc s)%Z.
Proof.
  induction s as [|a s IH]; intros acc Hacc; simpl; [exact Hacc|].
  apply IH. lia.
Qed.

Lemma first_match_In patterns text g :
  first_match patterns text = Some g ->
  exists p, In p patterns /\ search p text = Some g.
Proof.
  induction patterns as [|p ps IH]; simpl; [discriminate|].
  destruct (search p text) as [g'|] eqn:Hs.
  - intros [= <-]. exists p. split; [now left | exact Hs].
  - intros H. apply IH in H as (q & Hq & Hsq). exists q. split; [now right | exact Hsq].
Qed.

(** A match of the waiting-period family captures a run of digits of
    the text. *)
Lemma waiting_capture text g :
  first_match waiting_period_patterns text = Some g ->
  all_digits g = true /\ g <> "" /\ infix g text.
Proof.
  intros H. apply first_match_In in H as (p & Hp & Hs).
  destruct Hp as [<-|[<-|[]]]; apply search_sound in Hs as [Hcap Hin];
    try reflexivity; simpl in Hcap;
    repeat destruct Hcap as [Hcap|Hcap]; try contradiction;
    apply lang_plus_digit in Hcap as [Hd Hne]; repeat split; assumption.
Qed.


Lemma coverage_limit_first_match text :
  coverage_limit (extract_clause_info text) =
  option_map (fun g => int_of_digits (PyStr.remove_char "," g))
    (first_match coverage_limit_patterns text).
Proof.
  unfold extract_clause_info.
  destruct (first_match exclusions_patterns text);
    destruct (first_match coverage_limit_patterns text);
    destruct (first_match waiting_period_patterns text); reflexivity.
Qed.

Lemma exclusions_first_match text :
  exclusions (extract_clause_info text) =
  match first_match exclusions_patterns text with
  | Some g => map PyStr.strip (PyStr.split_on "," g)
  | None => []
  end.
Proof.
  unfold extract_clause_info.
  destruct (first_match exclusions_patterns text);
    destruct (first_match coverage_limit_patterns text);
    destruct (first_match waiting_period_patterns text); reflexivity.
Qed.

(** X1. The waiting period is a number written in the text: a
    non-empty run of digits that occurs in the clause, on which
    [int()] cannot fail. *)
Theorem waiting_period_is_written text n :
  waiting_period (extract_clause_info text) = Some n ->
  exists g,
    all_digits g = true /\ g <> "" /\ PyStr.contains g text = true /\
    PyStr.to_int g = Some n /\ (0 <= n)%Z.
Proof.
  rewrite waiting_period_first_match.
  destruct (first_match waiting_period_patterns text) as [g|] eqn:Hfm; [|discriminate].
  intros [= <-]. destruct (waiting_capture text g Hfm) as (Hd & Hne & Hin).
  exists g. repeat split; try assumption.
  - now apply infix_contains.
  - now apply to_int_digits.
  - apply digits_value_nonneg. lia.
Qed.

Lemma waiting_period_is_written_witness :
  exists g,
    all_digits g = true /\ g <> "" /\
    PyStr.contains g "A waiting period of 24 months applies." = true /\
    PyStr.to_int g = Some 24%Z /\ (0 <= 24)%Z.
Proof.
  exact (waiting_period_is_written "A waiting period of 24 months applies." 24%Z eq_refl).
Defined.



(** The fields of [split_on] do not contain the separator. *)
Lemma split_on_from_lacks sep s : forall field,
  lacks sep field = true ->
  Forall (fun x => lacks sep x = true) (PyStr.split_on_from sep field s).
Proof.
  induction s as [|a s IH]; intros field Hf; simpl.
  - now constructor.
  - destruct (Ascii.eqb a sep) eqn:Ha.
    + constructor; [exact Hf | now apply IH].
    + apply IH. unfold lacks, PyStr.snoc in *. rewrite forall_chars_app, Hf. simpl.
      now rewrite Ha.
Qed.

Lemma split_on_from_keeps p sep s : forall field,
  forall_chars p field = true -> forall_chars p s = true ->
  Forall (fun x => forall_chars p x = true) (PyStr.split_on_from sep field s).
Proof.
  induction s as [|a s IH]; intros field Hf Hs; simpl.
  - now constructor.
  - simpl in Hs. apply andb_true_iff in Hs as [Ha Hs].
    destruct (Ascii.eqb a sep).
    + constructor; [exact Hf | now apply IH].
    + apply IH; [|exact Hs]. unfold PyStr.snoc. rewrite forall_chars_app, Hf. simpl.
      now rewrite Ha.
Qed.

Lemma lstrip_keeps p s : forall_chars p s = true -> forall_chars p (PyStr.lstrip s) = true.
Proof.
  induction s as [|a s IH]; simpl; [reflexivity|].
  intros H. destruct (PyStr.is_space a); [|exact H].
  apply andb_true_iff in H as [_ H]. now apply IH.
Qed.

Lemma rstrip_keeps p s : forall_chars p s = true -> forall_chars p (PyStr.rstrip s) = true.
Proof.
  induction s as [|a s IH]; simpl; [reflexivity|].
  intros H. apply andb_true_iff in H as [Ha H].
  destruct (PyStr.is_space a && PyStr.is_empty (PyStr.rstrip s)); [reflexivity|].
  simpl. now rewrite Ha, IH.
Qed.

Lemma strip_keeps p s : forall_chars p s = true -> forall_chars p (PyStr.strip s) = true.
Proof. intros H. now apply rstrip_keeps, lstrip_keeps. Qed.

Lemma rstrip_idem s : PyStr.rstrip (PyStr.rstrip s) = PyStr.rstrip s.
Proof.
  induction s as [|a s IH]; simpl; [reflexivity|].
  destruct (PyStr.is_space a && PyStr.is_empty (PyStr.rstrip s)) eqn:H; [reflexivity|].
  simpl. rewrite IH, H. reflexivity.
Qed.

Lemma lstrip_starts_clean s : starts_clean (PyStr.lstrip s) = true.
Proof.
  induction s as [|a s IH]; simpl; [reflexivity|].
  destruct (PyStr.is_space a) eqn:Ha; [exact IH|]. simpl. now rewrite Ha.
Qed.

Lemma rstrip_starts_clean s : starts_clean s = true -> starts_clean (PyStr.rstrip s) = true.
Proof.
  destruct s as [|a s]; simpl; [reflexivity|].
  intros Ha. apply negb_true_iff in Ha. rewrite Ha. simpl. now rewrite Ha.
Qed.

Lemma lstrip_clean s : starts_clean s = true -> PyStr.lstrip s = s.
Proof.
  destruct s as [|a s]; simpl; [reflexivity|].
  intros Ha. apply negb_true_iff in Ha. now rewrite Ha.
Qed.

Lemma strip_idem s : PyStr.strip (PyStr.strip s) = PyStr.strip s.
Proof.
  unfold PyStr.strip.
  rewrite (lstrip_clean (PyStr.rstrip (PyStr.lstrip s))).
  - apply rstrip_idem.
  - apply rstrip_starts_clean, lstrip_starts_clean.
Qed.

Lemma exclusion_capture text g :
  first_match exclusions_patterns text = Some g -> lacks newline g = true.
Proof.
  intros H. apply first_match_In in H as (p & Hp & Hs).
  destruct Hp as [<-|[<-|[]]]; apply search_sound in Hs as [Hcap _];
    try reflexivity; simpl in Hcap;
    repeat destruct Hcap as [Hcap|Hcap]; try contradiction;
    apply lang_chars in Hcap as [Hc _]; exact Hc.
Qed.

(** X3. Every exclusion listed for a clause is a trimmed item: it has
    no white space at either end, no comma and no line break; and a
    clause that lists any exclusion has the type exclusion. *)
Theorem exclusions_are_trimmed_items text x :
  In x (exclusions (extract_clause_info text)) ->
  PyStr.strip x = x /\ lacks "," x = true /\ lacks newline x = true /\
  clause_type (extract_clause_info text) = "exclusion".
Proof.
  rewrite exclusions_first_match, clause_type_last_family.
  unfold last_family_label, family_matches.
  destruct (first_match exclusions_patterns text) as [g|] eqn:Hfm; [|intros []].
  intros Hin. apply in_map_iff in Hin as (y & <- & Hy).
  split; [apply strip_idem|]. split; [|split; [|reflexivity]].
  - apply strip_keeps.
    pose proof (split_on_from_lacks "," g "" eq_refl) as Hall.
    rewrite List.Forall_forall in Hall. now apply Hall.
  - apply strip_keeps.
    pose proof (split_on_from_keeps (fun a => negb (Ascii.eqb a newline)) "," g ""
                  eq_refl (exclusion_capture text g Hfm)) as Hall.
    rewrite List.Forall_forall in Hall. now apply Hall.
Qed.

Lemma exclusions_are_trimmed_items_witness :
  In "cosmetic surgery" (exclusions (extract_clause_info "Exclusions:  dental , cosmetic surgery ")) /\
  PyStr.strip "cosmetic surgery" = "cosmetic surgery" /\
  lacks "," "cosmetic surgery" = true.
Proof.
  assert (In "cosmetic surgery"
            (exclusions (extract_clause_info "Exclusions:  dental , cosmetic surgery ")))
    as Hin by (vm_compute; tauto).
  split; [exact Hin|].
  destruct (exclusions_are_trimmed_items _ _ Hin) as (Hs & Hc & _). split; assumption.
Defined.

Lemma split_on_nonempty sep s : PyStr.split_on sep s <> [].
Proof.
  unfold PyStr.split_on. generalize "". induction s as [|a s IH]; intros field; simpl.
  - discriminate.
  - destruct (Ascii.eqb a sep); [discriminate | apply IH].
Qed.

(** X4. The clause type is general exactly when nothing was
    extracted: no waiting period, no coverage limit, no exclusion. *)
Theorem general_iff_nothing_extracted text :
  clause_type (extract_clause_info text) = "general" <->
  waiting_period (extract_clause_info text) = None /\
  coverage_limit (extract_clause_info text) = None /\
  exclusions (extract_clause_info text) = [].
Proof.
  rewrite clause_type_last_family, waiting_period_first_match,
    coverage_limit_first_match, exclusions_first_match.
  unfold last_family_label, family_matches.
  destruct (first_match exclusions_patterns text) as [g|];
    destruct (first_match coverage_limit_patterns text);
    destruct (first_match waiting_period_patterns text); simpl;
    split; try discriminate; try tauto; try (intros (? & ? & ?); discriminate).
  all: intros (_ & _ & H); exfalso; apply map_eq_nil in H;
    now apply split_on_nonempty in H.
Qed.

End ExtractionMore.

(** ** More properties of [evaluate_coverage_eligibility] *)

Lemma returns_Ok {A} (r : result A) : returns r = true -> exists a, r = Ok a.
Proof. destruct r; [eauto | discriminate]. Qed.




Section EvaluationMore.



Lemma scan_clauses_exclusions cs : forall st st',
  scan_clauses cs st = Ok st' ->
  found_exclusions st' = (found_exclusions st ++ all_exclusions cs)%list.
Proof.
  induction cs as [|c cs IH]; intros st st' H; simpl in H.
  - injection H as <-. unfold all_exclusions. simpl. now rewrite app_nil_r.
  - unfold getitem, all_exclusions, clause_exclusions in *. simpl.
    destruct (c !! "clause_content") as [[ | | |s]|]; simpl in H; try discriminate.
    destruct (truthy_int _); simpl in H.
    + destruct (c !! "clause_id"); simpl in H; [|discriminate].
      destruct (exclusions (extract_clause_info s)) as [|e es];
        apply IH in H; simpl in H; rewrite H; simpl; [reflexivity|].
      now rewrite <- app_assoc.
    + destruct (exclusions (extract_clause_info s)) as [|e es];
        apply IH in H; simpl in H; rewrite H; simpl; [reflexivity|].
      now rewrite <- app_assoc.
Qed.



(** An evaluation is the rejection of one of the two checks, or the
    decision on the clauses. *)
Lemma evaluation_cases qe cs ev :
  evaluate_coverage_eligibility qe cs = Ok ev ->
  (eligible ev = false /\ decision ev = "rejected" /\ amount ev = None /\
   confidence_score ev = Float.zero) \/
  (exists cond st, ev = coverage_decision cond st).
Proof.
  rewrite evaluate_unfold.
  destruct (age_check _) as [r|] eqn:Hage.
  { intros [= <-]. destruct (age_check_shape _ _ Hage) as (He & Hd & Ha & Hc & _).
    left. auto. }
  destruct (get_field_default _ _); [|discriminate].
  destruct (waiting_check _ _) as [[r|]|] eqn:Hw; [| |discriminate].
  { intros [= <-]. destruct (waiting_check_shape _ _ _ Hw) as (m & -> & _).
    left. repeat split. }
  destruct (scan_clauses cs _) as [st|]; simpl; [|discriminate].
  intros [= <-]. right. eauto.
Qed.

(** X5. Every evaluation the function returns is either approved or
    rejected; it is eligible and carries an amount exactly when it is
    approved, the amount is positive, and the confidence is 0.0, 0.3 or
    0.8, hence between 0 and 1. *)
Theorem evaluation_invariants qe cs ev :
  evaluate_coverage_eligibility qe cs = Ok ev ->
  (decision ev = "approved" \/ decision ev = "rejected") /\
  (eligible ev = true <-> decision ev = "approved") /\
  (is_Some (amount ev) <-> decision ev = "approved") /\
  (forall a, amount ev = Some a -> (0 < a)%Z) /\
  (confidence_score ev = Float.zero \/ confidence_score ev = Float.f0_3 \/
   confidence_score ev = Float.f0_8) /\
  Float.ltb (confidence_score ev) Float.zero = false /\
  Float.ltb Float.one (confidence_score ev) = false.
Proof.
  intros H. apply evaluation_cases in H as [(He & Hd & Ha & Hc)|(cond & st & ->)].
  - rewrite He, Hd, Ha, Hc. repeat split; auto; try discriminate.
    intros [? ?]. discriminate.
  - unfold coverage_decision.
    destruct (max_coverage st >? 0)%Z eqn:Hgt; simpl.
    + apply Z.gtb_lt in Hgt. repeat split; auto. intros a [= <-]. exact Hgt.
    + repeat split; auto; try discriminate. intros [? ?]. discriminate.
Qed.

Lemma evaluation_invariants_witness :
  exists ev,
    evaluate_coverage_eligibility
      (QueryEntities (Given 46%Z) Null (Given "knee surgery") Null (Given "14") Null)
      [limit_clause] = Ok ev /\
    decision ev = "approved" /\ eligible ev = true /\ amount ev = Some 500000%Z.
Proof.
  eexists. split; [vm_compute; reflexivity|].
  pose proof (evaluation_invariants
                (QueryEntities (Given 46%Z) Null (Given "knee surgery") Null (Given "14") Null)
                [limit_clause] _ eq_refl) as (_ & He & _).
  split; [reflexivity|]. split; [now apply He | reflexivity].
Defined.














(** X11. An age from 18 to 65, both included, has no influence: the
    evaluation is the one of the same entities without an age. *)
Theorem age_in_range_is_ignored qe cs a :
  age qe = Given a -> (18 <= a <= 65)%Z ->
  evaluate_coverage_eligibility qe cs =
  evaluate_coverage_eligibility (with_age Absent qe) cs.
Proof.
  intros Ha Hr. unfold evaluate_coverage_eligibility, with_age. simpl. rewrite Ha. simpl.
  unfold min_age, max_age.
  assert (((a <? 18) || (a >? 65))%Z = false) as ->.
  { apply orb_false_iff. split; [apply Z.ltb_ge | rewrite Z.gtb_ltb; apply Z.ltb_ge]; lia. }
  rewrite andb_false_r. reflexivity.
Qed.

Lemma age_in_range_is_ignored_witness :
  evaluate_coverage_eligibility
    (QueryEntities (Given 65%Z) Null (Given "knee") Null Null Null) [limit_clause] =
  evaluate_coverage_eligibility
    (QueryEntities Absent Null (Given "knee") Null Null Null) [limit_clause].
Proof.
  exact (age_in_range_is_ignored
           (QueryEntities (Given 65%Z) Null (Given "knee") Null Null Null)
           [limit_clause] 65%Z eq_refl ltac:(lia)).
Defined.

End EvaluationMore.

(** ** More properties of [match_clauses_to_query] *)

Section MatcherMore.

Lemma content_is_text_insert v (clause : pydict) :
  content_is_text (<["relevance_score" := v]> clause) <-> content_is_text clause.
Proof. unfold content_is_text. now rewrite lookup_insert_ne. Qed.

Lemma content_lower_insert v (clause : pydict) :
  content_lower (<["relevance_score" := v]> clause) = content_lower clause.
Proof. unfold content_lower, get. now rewrite lookup_insert_ne. Qed.

Lemma clause_content_lower_insert v (clause : pydict) :
  clause_content_lower (<["relevance_score" := v]> clause) = clause_content_lower clause.
Proof. unfold clause_content_lower, get. now rewrite lookup_insert_ne. Qed.

Lemma clause_score_insert query v (clause : pydict) :
  clause_score query (<["relevance_score" := v]> clause) = clause_score query clause.
Proof. unfold clause_score. now rewrite content_lower_insert. Qed.

Lemma rescored_insert query v (clause : pydict) :
  rescored query (<["relevance_score" := v]> clause) = rescored query clause.
Proof. unfold rescored. now rewrite clause_score_insert, insert_insert_eq. Qed.

Lemma sort_desc_sorted_id l : StronglySorted descending l -> sort_desc l = l.
Proof.
  induction 1 as [|x l Hs IH Hx]; [reflexivity|].
  simpl. rewrite IH. destruct l as [|y l]; [reflexivity|].
  simpl. apply Forall_cons in Hx as [Hxy _]. unfold descending in Hxy. now rewrite Hxy.
Qed.

Lemma kept_text query clauses :
  Forall content_is_text clauses -> Forall content_is_text (kept query clauses).
Proof.
  intros H. unfold kept. apply Forall_map. apply List.Forall_forall.
  intros c Hc. apply filter_In in Hc as [Hc _]. simpl. unfold rescored.
  apply content_is_text_insert. rewrite List.Forall_forall in H. now apply H.
Qed.

(** Clauses that carry their own score and pass the threshold are
    kept as they are. *)
Lemma kept_fixed query l :
  (forall c, In c l -> rescored query c = c /\
                      Float.ltb Float.f0_1 (clause_score query c) = true) ->
  kept query l = l.
Proof.
  unfold kept. induction l as [|c l IH]; intros H; [reflexivity|].
  simpl. destruct (H c (or_introl eq_refl)) as [Hr ->]. simpl. rewrite Hr.
  f_equal. apply IH. intros c' Hc'. apply H. now right.
Qed.

(** X12. The matcher is idempotent: run on its own result, with the
    same query, it returns that result unchanged. *)
Theorem match_is_idempotent query clauses out :
  Forall content_is_text clauses ->
  match_clauses_to_query query clauses = Ok out ->
  match_clauses_to_query query out = Ok out.
Proof.
  intros Htext. rewrite (match_clauses_sorted_kept query clauses Htext).
  intros [= <-].
  assert (Hout : Forall content_is_text (sort_desc (kept query clauses))).
  { rewrite sort_desc_perm. now apply kept_text. }
  rewrite (match_clauses_sorted_kept query _ Hout). f_equal.
  rewrite (kept_fixed query (sort_desc (kept query clauses))).
  - apply sort_desc_sorted_id, sort_desc_sorted, kept_ordered.
  - intros c Hc. apply (Permutation_in _ (sort_desc_perm _)) in Hc.
    unfold kept in Hc. apply in_map_iff in Hc as (c0 & <- & Hc0).
    apply filter_In in Hc0 as [_ Hlt]. split.
    + exact (rescored_insert query _ c0).
    + assert (Hs : clause_score query (rescored query c0) = clause_score query c0)
        by apply clause_score_insert.
      now rewrite Hs.
Qed.

Lemma match_is_idempotent_witness :
  exists out,
    match_clauses_to_query "knee surgery in pune" sample_clauses = Ok out /\
    match_clauses_to_query "knee surgery in pune" out = Ok out.
Proof.
  destruct (returns_Ok (match_clauses_to_query "knee surgery in pune" sample_clauses))
    as [out H]; [vm_compute; reflexivity|].
  exists out. split; [exact H|].
  exact (match_is_idempotent _ _ out sample_clauses_are_text H).
Defined.

(** X13. A score the clauses already carry, such as the one of the
    vector search, is ignored: whatever "relevance_score" holds in the
    input, the result is the same. *)
Theorem existing_score_is_ignored query clauses v :
  match_clauses_to_query query (map (insert "relevance_score" v) clauses) =
  match_clauses_to_query query clauses.
Proof.
  unfold match_clauses_to_query. f_equal.
  induction clauses as [|c cs IH]; [reflexivity|].
  simpl. rewrite clause_content_lower_insert.
  destruct (clause_content_lower c) as [content|]; [|reflexivity]. simpl.
  rewrite IH. destruct (collect _ cs); [|reflexivity]. simpl.
  destruct (Float.ltb _ _); [|reflexivity]. now rewrite insert_insert_eq.
Qed.

(** A string without words consists of white space. *)
Lemma split_ws_from_nil s : forall word,
  PyStr.split_ws_from word s = [] ->
  PyStr.is_empty word = true /\ forall_chars PyStr.is_space s = true.
Proof.
  induction s as [|a s IH]; intros word; simpl.
  - destruct (PyStr.is_empty word); [auto | discriminate].
  - destruct (PyStr.is_space a) eqn:Ha.
    + destruct (PyStr.is_empty word) eqn:Hw; [|discriminate].
      intros H. apply IH in H as [_ H]. auto.
    + intros H. apply IH in H as [H _]. unfold PyStr.snoc in H.
      destruct word; discriminate.
Qed.

Lemma lower_space a : PyStr.is_space a = true -> PyStr.lower_char a = a.
Proof.
  destruct a as [[] [] [] [] [] [] [] []]; intros H; vm_compute in H |- *; congruence.
Qed.

Lemma lower_spaces s : forall_chars PyStr.is_space s = true -> PyStr.lower s = s.
Proof.
  induction s as [|a s IH]; simpl; [reflexivity|].
  intros H. apply andb_true_iff in H as [Ha Hs]. now rewrite (lower_space a Ha), IH.
Qed.

(** A word that starts with a visible character does not occur in
    white space. *)
Lemma contains_in_spaces term s :
  starts_clean term = true -> term <> "" ->
  forall_chars PyStr.is_space s = true -> PyStr.contains term s = false.
Proof.
  destruct term as [|t term]; [congruence|]. simpl. intros Ht _.
  apply negb_true_iff in Ht.
  induction s as [|a s IH]; simpl; [reflexivity|].
  intros H. apply andb_true_iff in H as [Ha Hs]. rewrite (IH Hs), orb_false_r.
  destruct (Ascii.eqb t a) eqn:Hta; [|reflexivity].
  apply Ascii.eqb_eq in Hta. congruence.
Qed.

Lemma shared_in_spaces terms q c :
  Forall (fun t => starts_clean t = true /\ t <> "") terms ->
  forall_chars PyStr.is_space q = true -> shared terms q c = [].
Proof.
  intros Hterms Hq. unfold shared. induction Hterms as [|t ts [Ht Hne] _ IH]; [reflexivity|].
  simpl. now rewrite (contains_in_spaces t q Ht Hne Hq).
Qed.

Lemma split_ws_spaces s :
  forall_chars PyStr.is_space s = true -> PyStr.split_ws s = [].
Proof.
  unfold PyStr.split_ws. induction s as [|a s IH]; simpl; [reflexivity|].
  intros H. apply andb_true_iff in H as [-> Hs]. now apply IH.
Qed.

Lemma clean_terms terms :
  forallb (fun t => starts_clean t && negb (PyStr.is_empty t)) terms = true ->
  Forall (fun t => starts_clean t = true /\ t <> "") terms.
Proof.
  intros H. apply List.Forall_forall. intros t Ht.
  rewrite forallb_forall in H. apply H in Ht. apply andb_true_iff in Ht as [H1 H2].
  split; [exact H1|]. intros ->. discriminate.
Qed.

Lemma score_of_spaces query_lower content :
  forall_chars PyStr.is_space query_lower = true ->
  score_spec query_lower content = Float.zero.
Proof.
  intros Hq. unfold score_spec.
  rewrite !shared_in_spaces; try exact Hq; try (apply clean_terms; reflexivity).
  simpl. unfold base_score, word_set. now rewrite (split_ws_spaces _ Hq).
Qed.

(** X14. A query without a word, empty or white space only, matches
    nothing: the result is the empty list. *)
Theorem query_without_words_matches_nothing query clauses :
  PyStr.split_ws query = [] -> Forall content_is_text clauses ->
  match_clauses_to_query query clauses = Ok [].
Proof.
  intros Hq Htext. rewrite (match_clauses_sorted_kept query clauses Htext).
  apply split_ws_from_nil in Hq as [_ Hq].
  assert (Hnone : kept query clauses = []); [|now rewrite Hnone].
  unfold kept. induction clauses as [|c cs IH]; [reflexivity|].
  apply Forall_cons in Htext as [_ Htext]. simpl.
  unfold clause_score at 1. rewrite (lower_spaces query Hq), (score_of_spaces _ _ Hq).
  now apply IH.
Qed.

Lemma query_without_words_matches_nothing_witness :
  match_clauses_to_query "  " sample_clauses = Ok [].
Proof.
  apply query_without_words_matches_nothing;
    [reflexivity | exact sample_clauses_are_text].
Defined.

End MatcherMore.

(** ** Properties of [get_clause_summary] *)

Section Summary.

Lemma summarise_app cs1 : forall cs2 s,
  summarise (cs1 ++ cs2) s = (s1 <- summarise cs1 s ;; summarise cs2 s1).
Proof.
  induction cs1 as [|c cs1 IH]; intros cs2 s; [reflexivity|].
  simpl. destruct (getitem c "clause_content") as [v|]; [|reflexivity]. simpl.
  destruct (content_of v) as [t|]; [|reflexivity]. simpl. apply IH.
Qed.

Lemma has_text_dec (clause : pydict) : {has_text clause} + {~ has_text clause}.
Proof.
  unfold has_text. destruct (clause !! "clause_content") as [[ | | |s]|].
  all: try (right; intros [s' H]; discriminate).
  left. now exists s.
Qed.

Lemma summarise_returns cs : forall s,
  (exists s', summarise cs s = Ok s') <-> Forall has_text cs.
Proof.
  induction cs as [|c cs IH]; intros s; simpl.
  - split; [constructor | eauto].
  - unfold getitem. split.
    + intros [s' H]. destruct (c !! "clause_content") as [[ | | |t]|] eqn:Hc;
        simpl in H; try discriminate.
      constructor; [now exists t|]. eapply IH. eauto.
    + intros H. apply Forall_cons in H as [[t Ht] H]. rewrite Ht. simpl.
      now apply IH.
Qed.

(** X15. The summary exists exactly when every clause has a content
    that is a string; otherwise the function raises. *)
Theorem summary_returns_iff_text clauses :
  (exists summary, get_clause_summary clauses = Ok summary) <-> Forall has_text clauses.
Proof. apply summarise_returns. Qed.

Lemma count_of_type_cons t c cs :
  count_of_type t (c :: cs) =
  ((if String.eqb (type_of_clause c) t then 1 else 0) + count_of_type t cs)%Z.
Proof.
  unfold count_of_type. simpl. destruct (String.eqb _ _); simpl; lia.
Qed.

Lemma count_of_type_nonneg t cs : (0 <= count_of_type t cs)%Z.
Proof. unfold count_of_type. lia. Qed.

(** What the loop does to a summary. *)
Lemma summarise_spec cs : forall s s',
  summarise cs s = Ok s' ->
  total_clauses s' = total_clauses s /\
  (forall t, default 0%Z (clause_types s' !! t) =
             (default 0 (clause_types s !! t) + count_of_type t cs)%Z) /\
  (forall t, is_Some (clause_types s' !! t) <->
             is_Some (clause_types s !! t) \/ (0 < count_of_type t cs)%Z) /\
  coverage_limits s' = (coverage_limits s ++ nonzero (map clause_limit cs))%list /\
  waiting_periods s' = (waiting_periods s ++ nonzero (map clause_waiting cs))%list /\
  summary_exclusions s' = (summary_exclusions s ++ all_exclusions cs)%list.
Proof.
  induction cs as [|c cs IH]; intros s s' H; simpl in H.
  - injection H as <-. unfold count_of_type, all_exclusions. simpl.
    rewrite !app_nil_r. repeat split; try lia; intros; try tauto.
    destruct H as [H|H]; [exact H | lia].
  - unfold getitem in H.
    destruct (c !! "clause_content") as [[ | | |text]|] eqn:Hc; simpl in H; try discriminate.
    apply IH in H as (Htot & Hcount & Hkeys & Hlim & Hwait & Hexc). simpl in *.
    assert (Htype : type_of_clause c = clause_type (extract_clause_info text))
      by (unfold type_of_clause; now rewrite Hc).
    split; [exact Htot|]. split; [|split; [|split; [|split]]].
    + intros t. rewrite Hcount, count_of_type_cons, Htype. unfold count_type.
      destruct (String.eqb_spec (clause_type (extract_clause_info text)) t) as [->|Hne].
      * rewrite lookup_insert_eq. simpl. lia.
      * rewrite lookup_insert_ne by exact Hne. lia.
    + intros t. rewrite Hkeys, count_of_type_cons, Htype. unfold count_type.
      pose proof (count_of_type_nonneg t cs) as Hpos.
      destruct (String.eqb_spec (clause_type (extract_clause_info text)) t) as [->|Hne].
      * rewrite lookup_insert_eq. split; [intros _; right; lia | intros _; left; eauto].
      * rewrite lookup_insert_ne by exact Hne. split.
        -- intros [H|H]; [now left | right; lia].
        -- intros [H|H]; [now left | right; lia].
    + rewrite Hlim. unfold append_truthy, truthy_int, nonzero, clause_limit. simpl.
      rewrite Hc. destruct (coverage_limit (extract_clause_info text)) as [n|]; simpl.
      * destruct (n =? 0)%Z; simpl; [reflexivity | now rewrite <- app_assoc].
      * reflexivity.
    + rewrite Hwait. unfold append_truthy, truthy_int, nonzero, clause_waiting. simpl.
      rewrite Hc. destruct (waiting_period (extract_clause_info text)) as [n|]; simpl.
      * destruct (n =? 0)%Z; simpl; [reflexivity | now rewrite <- app_assoc].
      * reflexivity.
    + rewrite Hexc. unfold all_exclusions, clause_exclusions. simpl. rewrite Hc.
      now rewrite <- app_assoc.
Qed.

Lemma type_of_clause_labels c :
  has_text c ->
  type_of_clause c = "general" \/ type_of_clause c = "waiting_period" \/
  type_of_clause c = "coverage_limit" \/ type_of_clause c = "exclusion".
Proof.
  intros [s Hs]. unfold type_of_clause. rewrite Hs, clause_type_last_family.
  unfold last_family_label.
  repeat match goal with |- context [if ?b then _ else _] => destruct b end; auto.
Qed.

Lemma counts_add_up cs :
  Forall has_text cs ->
  (count_of_type "general" cs + count_of_type "waiting_period" cs +
   count_of_type "coverage_limit" cs + count_of_type "exclusion" cs)%Z =
  Z.of_nat (length cs).
Proof.
  induction 1 as [|c cs Hc _ IH]; [reflexivity|].
  rewrite !count_of_type_cons. simpl length. rewrite Nat2Z.inj_succ, <- IH.
  destruct (type_of_clause_labels c Hc) as [-> | [-> | [-> | ->]]]; simpl; lia.
Qed.

(** X16. The summary counts each clause once, under the type
    [extract_clause_info] gives it: a type that no clause has is not a
    key, any other type maps to the number of its clauses, and the four
    counts add up to [total_clauses], the length of the list. *)
Theorem summary_counts_clauses clauses summary :
  get_clause_summary clauses = Ok summary ->
  total_clauses summary = Z.of_nat (length clauses) /\
  (forall t, clause_types summary !! t =
             if (count_of_type t clauses =? 0)%Z then None
             else Some (count_of_type t clauses)) /\
  (count_of_type "general" clauses + count_of_type "waiting_period" clauses +
   count_of_type "coverage_limit" clauses + count_of_type "exclusion" clauses)%Z =
  total_clauses summary.
Proof.
  intros H.
  assert (Htext : Forall has_text clauses) by (apply summary_returns_iff_text; eauto).
  apply summarise_spec in H as (Htot & Hcount & Hkeys & _). simpl in *.
  split; [exact Htot|]. split; [|rewrite Htot; now apply counts_add_up].
  intros t. specialize (Hcount t). specialize (Hkeys t).
  rewrite lookup_empty in Hcount, Hkeys. simpl in Hcount.
  pose proof (count_of_type_nonneg t clauses) as Hpos.
  destruct (Z.eqb_spec (count_of_type t clauses) 0) as [Hz|Hnz].
  - destruct (clause_types summary !! t) as [n|] eqn:Hn; [|reflexivity].
    assert (is_Some (Some n)) as Hs by eauto.
    apply Hkeys in Hs as [[x Hx]|Hs]; [discriminate | lia].
  - destruct (clause_types summary !! t) as [n|] eqn:Hn.
    + simpl in Hcount. now rewrite Hcount.
    + simpl in Hcount. lia.
Qed.

Lemma summary_counts_clauses_witness :
  exists summary,
    get_clause_summary [limit_clause; waiting_clause; exclusion_clause] = Ok summary /\
    total_clauses summary = 3%Z /\
    clause_types summary !! "exclusion" = Some 1%Z /\
    clause_types summary !! "general" = None.
Proof.
  destruct (get_clause_summary [limit_clause; waiting_clause; exclusion_clause])
    as [summary|e] eqn:H; [|vm_compute in H; discriminate].
  exists summary. split; [reflexivity|].
  destruct (summary_counts_clauses _ summary H) as (Htot & Hcount & _).
  split; [exact Htot|]. split; [exact (Hcount "exclusion") | exact (Hcount "general")].
Defined.

Lemma clause_limit_nonneg c : (0 <= clause_limit c)%Z.
Proof.
  unfold clause_limit. destruct (c !! "clause_content") as [[ | | |s]|]; try lia.
  rewrite coverage_limit_first_match.
  destruct (first_match coverage_limit_patterns s); simpl; [|lia].
  apply digits_value_nonneg. lia.
Qed.


Lemma nonzero_positive l : Forall (fun n => (0 <= n)%Z) l -> Forall (fun n => (0 < n)%Z) (nonzero l).
Proof.
  induction 1 as [|n l Hn _ IH]; simpl; [constructor|].
  destruct (Z.eqb_spec n 0); simpl; [exact IH|]. constructor; [lia | exact IH].
Qed.

Lemma maximum_nonzero l : Forall (fun n => (0 <= n)%Z) l -> maximum (nonzero l) = maximum l.
Proof.
  induction 1 as [|n l Hn Hl IH]; simpl; [reflexivity|].
  assert (0 <= maximum l)%Z by (clear; induction l; simpl; lia).
  destruct (Z.eqb_spec n 0); simpl; lia.
Qed.

Lemma maximum_limits cs : maximum (map clause_limit cs) = max_coverage_limit cs.
Proof. induction cs as [|c cs IH]; simpl; [reflexivity | now rewrite IH]. Qed.

Lemma Forall_map_nonneg {A} (f : A -> Z) l :
  (forall a, (0 <= f a)%Z) -> Forall (fun n => (0 <= n)%Z) (map f l).
Proof. intros H. induction l; simpl; constructor; auto. Qed.



(** The evaluation, when it reaches the clauses, decides on the
    maximum limit and lists all exclusions. *)
Lemma evaluate_reads_clauses qe cs ev :
  evaluate_coverage_eligibility qe cs = Ok ev -> short_circuits qe = false ->
  exists ids,
    ev = coverage_decision (condition_text qe)
           (ScanState (max_coverage_limit cs) ids (all_exclusions cs)).
Proof.
  rewrite evaluate_unfold. unfold short_circuits.
  destruct (age_check _); [discriminate|].
  destruct (get_field_default _ _); [|discriminate].
  destruct (waiting_check _ _) as [[r|]|]; try discriminate.
  destruct (scan_clauses cs (ScanState 0 [] [])) as [st|] eqn:Hscan; [|discriminate].
  simpl. intros [= <-] _.
  pose proof (scan_clauses_max cs (ScanState 0 [] []) st (Z.le_refl 0) Hscan) as Hmax.
  pose proof (scan_clauses_exclusions cs _ _ Hscan) as Hexc. simpl in *.
  rewrite Z.max_r in Hmax by apply max_coverage_limit_nonneg.
  exists (applicable_clauses st). destruct st. simpl in *. now subst.
Qed.

(** X18. The evaluation and the summary agree. When the evaluation
    reaches the clauses, it approves exactly when the summary lists a
    coverage limit, the approved amount is the largest limit of the
    summary, and both list the same exclusions. *)
Theorem evaluation_agrees_with_summary qe clauses ev summary :
  evaluate_coverage_eligibility qe clauses = Ok ev ->
  short_circuits qe = false ->
  get_clause_summary clauses = Ok summary ->
  (decision ev = "approved" <-> coverage_limits summary <> []) /\
  amount ev = (if bool_decide (coverage_limits summary = []) then None
               else Some (maximum (coverage_limits summary))) /\
  ev_exclusions ev = summary_exclusions summary.
Proof.
  intros Hev Hsc Hsum. destruct (evaluate_reads_clauses _ _ _ Hev Hsc) as (ids & ->).
  apply summarise_spec in Hsum as (_ & _ & _ & Hlim & _ & Hexc). simpl in *.
  rewrite Hlim, Hexc.
  pose proof (maximum_nonzero (map clause_limit clauses)
                (Forall_map_nonneg _ _ clause_limit_nonneg)) as Hmax.
  rewrite maximum_limits in Hmax. rewrite Hmax.
  pose proof (nonzero_positive (map clause_limit clauses)
                (Forall_map_nonneg _ _ clause_limit_nonneg)) as Hpos.
  unfold coverage_decision. simpl.
  destruct (nonzero (map clause_limit clauses)) as [|n l] eqn:Hnz.
  - simpl in Hmax. rewrite <- Hmax. simpl. repeat split; try discriminate.
    congruence.
  - assert (0 < max_coverage_limit clauses)%Z as Hgt.
    { rewrite <- Hmax. apply Forall_cons in Hpos as [Hn _]. simpl. lia. }
    assert ((max_coverage_limit clauses >? 0)%Z = true) as ->
      by (rewrite Z.gtb_ltb; now apply Z.ltb_lt).
    simpl. repeat split; discriminate.
Qed.

Lemma evaluation_agrees_with_summary_witness :
  exists ev summary,
    evaluate_coverage_eligibility knee_entities [limit_clause; exclusion_clause] = Ok ev /\
    get_clause_summary [limit_clause; exclusion_clause] = Ok summary /\
    (decision ev = "approved" <-> coverage_limits summary <> []) /\
    ev_exclusions ev = summary_exclusions summary.
Proof.
  destruct (returns_Ok
              (evaluate_coverage_eligibility knee_entities [limit_clause; exclusion_clause]))
    as [ev Hev]; [vm_compute; reflexivity|].
  destruct (returns_Ok (get_clause_summary [limit_clause; exclusion_clause]))
    as [summary Hsum]; [vm_compute; reflexivity|].
  exists ev, summary. split; [exact Hev|]. split; [exact Hsum|].
  assert (Hsc : short_circuits knee_entities = false) by (vm_compute; reflexivity).
  destruct (evaluation_agrees_with_summary knee_entities _ ev summary Hev Hsc Hsum)
    as (Hd & _ & He).
  split; [exact Hd | exact He].
Defined.

End Summary.

(** ** Properties of the fallback of [LLMService] *)

Section Fallback.
Import Re.

Lemma lower_app a b : PyStr.lower (a +:+ b) = PyStr.lower a +:+ PyStr.lower b.
Proof.
  induction a as [|x a IH]; [reflexivity|].
  change (String x a +:+ b) with (String x (a +:+ b)). simpl. rewrite IH. reflexivity.
Qed.

Lemma infix_lower g s : infix g s -> infix (PyStr.lower g) (PyStr.lower s).
Proof.
  intros (a & b & ->). exists (PyStr.lower a), (PyStr.lower b).
  now rewrite !lower_app.
Qed.

(** A text that a literal reads is the literal, up to the case of its
    letters. *)
Lemma lang_lit w : forall s, lang (lit w) s -> PyStr.lower s = PyStr.lower w.
Proof.
  induction w as [|x w IH]; intros s H.
  - inversion H. reflexivity.
  - destruct w as [|y w].
    + inversion H as [|p a Hp| | | | | | | | | | |]; subst. simpl.
      apply Ascii.eqb_eq in Hp. now rewrite Hp.
    + change (lit (String x (String y w))) with (Cat (ichar x) (lit (String y w))) in H.
      inversion H as [| |r1 r2 w1 w2 H1 H2| | | | | | | | | |]; subst.
      inversion H1 as [|p a Hp| | | | | | | | | | |]; subst.
      apply Ascii.eqb_eq in Hp. rewrite lower_app. simpl PyStr.lower at 1.
      rewrite Hp, (IH _ H2). reflexivity.
Qed.

Ltac fallback_fields :=
  unfold LLMService.fallback_evaluation, LLMService.dict,
    LLMService._fallback_entity_extraction, LLMService.dump_field in *;
  cbn [LLMService.age LLMService.gender LLMService.condition LLMService.location
       LLMService.policy_duration LLMService.coverage_type
       age gender condition location policy_duration coverage_type
       get_field get_field_default] in *.

Lemma age_capture query g :
  search LLMService.age_pattern query = Some g ->
  all_digits g = true /\ g <> "" /\ infix g query.
Proof.
  intros Hs. apply search_sound in Hs as [Hcap Hin]; [|reflexivity].
  simpl in Hcap. repeat destruct Hcap as [Hcap|Hcap]; try contradiction.
  apply lang_plus_digit in Hcap as [Hd Hne]. repeat split; assumption.
Qed.

Lemma duration_capture query g :
  search LLMService.duration_pattern query = Some g ->
  all_digits g = true /\ g <> "" /\ infix g query.
Proof.
  intros Hs. apply search_sound in Hs as [Hcap Hin]; [|reflexivity].
  simpl in Hcap. repeat destruct Hcap as [Hcap|Hcap]; try contradiction.
  apply lang_plus_digit in Hcap as [Hd Hne]. repeat split; assumption.
Qed.

Lemma gender_capture query g :
  search LLMService.gender_pattern query = Some g ->
  In (PyStr.lower g) ["male"; "female"; "man"; "woman"] /\ infix g query.
Proof.
  intros Hs. apply search_sound in Hs as [Hcap Hin]; [|reflexivity].
  split; [|exact Hin].
  simpl in Hcap. repeat destruct Hcap as [Hcap|Hcap]; try contradiction.
  inversion Hcap as [| | |r1 r2 w H1|r1 r2 w H1| | | | | | | |]; subst.
  { apply (lang_lit "male") in H1. rewrite H1. simpl. auto. }
  inversion H1 as [| | |r1 r2 w H2|r1 r2 w H2| | | | | | | |]; subst.
  { apply (lang_lit "female") in H2. rewrite H2. simpl. auto. }
  inversion H2 as [| | |r1 r2 w H3|r1 r2 w H3| | | | | | | |]; subst.
  { apply (lang_lit "man") in H3. rewrite H3. simpl. auto. }
  apply (lang_lit "woman") in H3. rewrite H3. simpl. auto 6.
Qed.

Lemma first_keyword_spec words query w :
  LLMService.first_keyword words query = Some w ->
  In w words /\ PyStr.contains (PyStr.lower w) (PyStr.lower query) = true.
Proof. unfold LLMService.first_keyword. intros H. now apply find_some in H. Qed.

(** X19. What the fallback extraction returns is read off the query:
    the age and the policy duration are non-empty runs of digits of the
    query, the age their value; the gender is one of four lower-case
    words; the condition and the location are entries of the two
    keyword lists that occur in the query, whatever the case; the
    coverage type is never set. *)
Theorem fallback_entities_come_from_query query :
  let e := LLMService._fallback_entity_extraction query in
  (forall a, LLMService.age e = Some a ->
     (0 <= a)%Z /\
     exists g, all_digits g = true /\ g <> "" /\ PyStr.contains g query = true /\
               PyStr.to_int g = Some a) /\
  (forall g, LLMService.gender e = Some g ->
     In g ["male"; "female"; "man"; "woman"] /\
     PyStr.contains g (PyStr.lower query) = true) /\
  (forall c, LLMService.condition e = Some c ->
     In c LLMService.medical_keywords /\ PyStr.contains c (PyStr.lower query) = true) /\
  (forall l, LLMService.location e = Some l ->
     In l LLMService.locations /\
     PyStr.contains (PyStr.lower l) (PyStr.lower query) = true) /\
  (forall d, LLMService.policy_duration e = Some d ->
     all_digits d = true /\ d <> "" /\ PyStr.contains d query = true) /\
  LLMService.coverage_type e = None.
Proof.
  intros e. subst e. fallback_fields. repeat split.
  - destruct (search LLMService.age_pattern query); [|discriminate].
    injection H as <-. apply digits_value_nonneg. lia.
  - destruct (search LLMService.age_pattern query) as [g|] eqn:Hs; [|discriminate].
    injection H as <-. destruct (age_capture _ _ Hs) as (Hd & Hne & Hin).
    exists g. repeat split; try assumption.
    + now apply infix_contains.
    + now apply to_int_digits.
  - destruct (search LLMService.gender_pattern query) as [g'|] eqn:Hs; [|discriminate].
    injection H as <-. now apply gender_capture in Hs as [Hg _].
  - destruct (search LLMService.gender_pattern query) as [g'|] eqn:Hs; [|discriminate].
    injection H as <-. apply gender_capture in Hs as [_ Hin].
    now apply infix_contains, infix_lower.
  - now apply first_keyword_spec in H as [H _].
  - pose proof H as H'. apply first_keyword_spec in H as [Hin H].
    assert (PyStr.lower c = c) as Hc.
    { simpl in Hin. repeat destruct Hin as [<-|Hin]; try reflexivity. contradiction. }
    now rewrite Hc in H.
  - now apply first_keyword_spec in H as [H _].
  - now apply first_keyword_spec in H as [_ H].
  - now apply duration_capture in H as (H & _).
  - now apply duration_capture in H as (_ & H & _).
  - apply duration_capture in H as (_ & _ & H). now apply infix_contains.
Qed.

Lemma fallback_entities_come_from_query_witness :
  In "male" ["male"; "female"; "man"; "woman"] /\
  PyStr.contains "male" (PyStr.lower test_query) = true.
Proof.
  exact (proj1 (proj2 (fallback_entities_come_from_query test_query)) "male" eq_refl).
Defined.







Lemma clause_ids_missing cs c :
  In c cs -> clause_id_of c = None ->
  LLMService.clause_ids cs = Raise KeyError.
Proof.
  unfold clause_id_of. induction cs as [|c' cs IH]; intros Hin Hc; [destruct Hin|].
  simpl. unfold getitem. destruct (c' !! "clause_id") as [id|] eqn:Hid; [|reflexivity].
  simpl. destruct Hin as [->|Hin]; [congruence|]. now rewrite IH.
Qed.

Lemma Forall_take {A} (P : A -> Prop) n l : Forall P l -> Forall P (firstn n l).
Proof.
  intros H. revert n. induction H; intros [|n]; simpl; constructor; auto.
Qed.



(** X22. The identifiers of the first three clauses are read even
    when the evaluation did not need them: if one of these clauses has
    no identifier, the fallback decision raises KeyError although the
    evaluation returned. Clauses after the third are not read. *)
Theorem fallback_decision_needs_identifiers query clauses ev clause :
  LLMService.fallback_evaluation query clauses = Ok ev ->
  In clause (firstn 3 clauses) -> clause_id_of clause = None ->
  LLMService._fallback_decision query clauses = Raise KeyError.
Proof.
  intros Hev Hin Hid. unfold LLMService._fallback_decision. rewrite Hev. simpl.
  now rewrite (clause_ids_missing _ clause Hin Hid).
Qed.

Lemma fallback_decision_needs_identifiers_witness :
  (exists ev, LLMService.fallback_evaluation test_query [waiting_note] = Ok ev) /\
  LLMService._fallback_decision test_query [waiting_note] = Raise KeyError.
Proof.
  split; [eexists; vm_compute; reflexivity|].
  eapply (fallback_decision_needs_identifiers test_query [waiting_note] _ waiting_note).
  - vm_compute. reflexivity.
  - now left.
  - reflexivity.
Defined.

End Fallback.

(** ** Properties of [create_text_chunks] *)

Section Chunks.
Import DocumentProcessor.

Lemma snoc_app w a : PyStr.snoc w a = w +:+ String a "".
Proof. reflexivity. Qed.

Lemma is_empty_snoc w a : PyStr.is_empty (PyStr.snoc w a) = false.
Proof. destruct w; reflexivity. Qed.

Lemma forall_chars_snoc p w a :
  forall_chars p (PyStr.snoc w a) = forall_chars p w && p a.
Proof. unfold PyStr.snoc. rewrite forall_chars_app. simpl. now rewrite andb_true_r. Qed.

(** [split] returns words. *)
Lemma split_ws_from_words s : forall acc,
  forall_chars (fun a => negb (PyStr.is_space a)) acc = true ->
  Forall is_word (PyStr.split_ws_from acc s).
Proof.
  induction s as [|a s IH]; intros acc Hacc; simpl.
  - destruct acc as [|x acc]; simpl; constructor; [|constructor].
    split; [discriminate | exact Hacc].
  - destruct (PyStr.is_space a) eqn:Ha.
    + destruct acc as [|x acc]; simpl.
      * now apply IH.
      * constructor; [split; [discriminate | exact Hacc]|]. now apply IH.
    + apply IH. rewrite forall_chars_snoc, Hacc, Ha. reflexivity.
Qed.

Lemma split_ws_words s : Forall is_word (PyStr.split_ws s).
Proof. now apply split_ws_from_words. Qed.

(** Reading a word extends the word at hand. *)
Lemma split_ws_from_word w : forall acc rest,
  forall_chars (fun a => negb (PyStr.is_space a)) w = true ->
  PyStr.split_ws_from acc (w +:+ rest) = PyStr.split_ws_from (acc +:+ w) rest.
Proof.
  induction w as [|a w IH]; intros acc rest Hw.
  - now rewrite append_nil_r.
  - change (String a w +:+ rest) with (String a (w +:+ rest)). simpl in *.
    apply andb_true_iff in Hw as [Ha Hw]. apply negb_true_iff in Ha. rewrite Ha.
    rewrite IH by exact Hw. unfold PyStr.snoc. rewrite append_assoc. reflexivity.
Qed.

(** Splitting undoes joining with a blank. *)
Lemma split_ws_join ws :
  Forall is_word ws -> PyStr.split_ws (join " " ws) = ws.
Proof.
  unfold PyStr.split_ws. induction 1 as [|w ws [Hne Hw] Hws IH]; [reflexivity|].
  simpl. destruct ws as [|w' ws].
  - rewrite <- (append_nil_r w) at 1. rewrite split_ws_from_word by exact Hw.
    simpl. destruct w; [congruence | reflexivity].
  - rewrite split_ws_from_word by exact Hw.
    change ("" +:+ w) with w. change (" " +:+ ?x) with (String " " x).
    simpl PyStr.split_ws_from at 1. 
    change (PyStr.is_space " ") with true. cbv iota.
    destruct w; [congruence|]. cbn [PyStr.is_empty]. f_equal. exact IH.
Qed.

(** What is joined from words is not blank. *)
Lemma strip_join_words ws :
  Forall is_word ws -> ws <> [] -> PyStr.is_empty (PyStr.strip (join " " ws)) = false.
Proof.
  intros Hws Hne. destruct Hws as [|w ws [Hw Hc] _]; [congruence|].
  destruct w as [|a w]; [congruence|]. simpl in Hc.
  apply andb_true_iff in Hc as [Ha _]. apply negb_true_iff in Ha.
  assert (exists t, join " " (String a w :: ws) = String a t) as [t ->].
  { simpl. destruct ws; eexists; reflexivity. }
  unfold PyStr.strip. simpl. rewrite Ha. simpl. now rewrite Ha.
Qed.

Lemma slice_from {A} (l : list A) i m :
  (0 <= i)%Z -> (0 <= m)%Z ->
  slice l i (i + m) = take (Z.to_nat m) (drop (Z.to_nat i) l).
Proof.
  intros Hi Hm. unfold slice.
  assert ((i <? 0)%Z = false) as -> by (apply Z.ltb_ge; lia).
  assert ((i + m <? 0)%Z = false) as -> by (apply Z.ltb_ge; lia).
  destruct (Z_le_gt_dec i (Z.of_nat (length l))) as [Hle|Hgt].
  - rewrite (Z.min_l i) by lia.
    destruct (Z_le_gt_dec (i + m) (Z.of_nat (length l))) as [Hle'|Hgt'].
    + rewrite Z.min_l by lia. f_equal. lia.
    + rewrite Z.min_r by lia.
      rewrite (take_ge (drop (Z.to_nat i) l) (Z.to_nat m))
        by (rewrite length_drop; lia).
      apply take_ge. rewrite length_drop. lia.
  - rewrite !Z.min_r by lia. rewrite Z.sub_diag. simpl.
    rewrite (drop_ge l (Z.to_nat i)) by lia. now rewrite take_nil.
Qed.

Lemma chunks_from_app self words s1 s2 :
  chunks_from self words (s1 ++ s2) =
  (chunks_from self words s1 ++ chunks_from self words s2)%list.
Proof.
  induction s1 as [|i s1 IH]; [reflexivity|].
  simpl. destruct (negb _); simpl; now rewrite IH.
Qed.

(** The chunks of a well-sized processor: one for every start below
    the number of words, none of them dropped. *)
Lemma chunks_from_starts self words :
  well_sized self -> Forall is_word words ->
  forall c, (c * stride self < length words + stride self)%nat ->
  chunks_from self words (map (fun k => (Z.of_nat k * (chunk_size self - chunk_overlap self))%Z)
                            (seq 0 c)) =
  map (fun k => join " " (take (Z.to_nat (chunk_size self)) (drop (k * stride self) words)))
    (seq 0 c).
Proof.
  intros Hsz Hw. unfold well_sized, stride in *.
  induction c as [|c IH]; intros Hc; [reflexivity|].
  rewrite seq_S, !map_app, chunks_from_app, IH by lia. f_equal. simpl.
  rewrite slice_from by nia.
  assert (Z.to_nat (Z.of_nat c * (chunk_size self - chunk_overlap self)) =
          c * Z.to_nat (chunk_size self - chunk_overlap self))%nat as -> by nia.
  rewrite strip_join_words; [reflexivity| |].
  - apply Forall_take, Forall_drop, Hw.
  - intros Hnil. apply (f_equal length) in Hnil.
    rewrite length_take, length_drop in Hnil. simpl in Hnil. nia.
Qed.

Lemma range_length_stride self n :
  well_sized self ->
  Z.to_nat (range_length (Z.of_nat n) (chunk_size self - chunk_overlap self)) =
  div_up n (stride self).
Proof.
  unfold well_sized, stride, range_length, div_up. intros Hsz.
  set (step := (chunk_size self - chunk_overlap self)%Z).
  assert (0 < step)%Z by (subst step; lia).
  destruct (Z.leb_spec (Z.of_nat n) 0).
  - assert (n = 0)%nat as -> by lia. simpl.
    symmetry. apply Nat.div_small. lia.
  - apply Nat2Z.inj. rewrite Z2Nat.id by (apply Z.add_nonneg_nonneg; [apply Z.div_pos|]; lia).
    rewrite Nat2Z.inj_div, Nat2Z.inj_sub, Nat2Z.inj_add, Z2Nat.id by lia.
    replace (Z.of_nat n + step - Z.of_nat 1)%Z with ((Z.of_nat n - 1) + 1 * step)%Z by lia.
    rewrite Z.div_add by lia. reflexivity.
Qed.

Lemma div_up_bounds n d : (0 < d)%nat ->
  (n <= div_up n d * d /\ div_up n d * d < n + d)%nat.
Proof.
  intros Hd. unfold div_up.
  pose proof (Nat.div_mod_eq (n + d - 1) d) as Heq.
  pose proof (Nat.mod_upper_bound (n + d - 1) d) as Hlt.
  nia.
Qed.

(** The chunks of a text, one by one. *)
Lemma create_text_chunks_spec self text :
  well_sized self ->
  create_text_chunks self text =
  Ok (map (fun k => join " " (take (Z.to_nat (chunk_size self))
                               (drop (k * stride self) (PyStr.split_ws text))))
        (seq 0 (div_up (length (PyStr.split_ws text)) (stride self)))).
Proof.
  intros Hsz. unfold create_text_chunks, range0.
  pose proof Hsz as Hsz'. unfold well_sized in Hsz'.
  assert ((chunk_size self - chunk_overlap self =? 0)%Z = false) as ->
    by (apply Z.eqb_neq; lia).
  assert ((chunk_size self - chunk_overlap self <? 0)%Z = false) as ->
    by (apply Z.ltb_ge; lia).
  simpl. rewrite range_length_stride by exact Hsz. f_equal.
  apply chunks_from_starts; [exact Hsz | apply split_ws_words|].
  apply div_up_bounds. unfold stride. lia.
Qed.

(** X23. The chunk size must exceed the overlap. With the two equal,
    the function raises ValueError on every text, the empty one
    included; with a larger overlap it returns no chunk at all, and
    the text is dropped without an error. *)
Theorem chunk_size_must_exceed_overlap self text :
  match (chunk_size self ?= chunk_overlap self)%Z with
  | Eq => create_text_chunks self text = Raise ValueError
  | Lt => create_text_chunks self text = Ok []
  | Gt => exists chunks, create_text_chunks self text = Ok chunks
  end.
Proof.
  unfold create_text_chunks, range0.
  destruct (Z.compare_spec (chunk_size self) (chunk_overlap self)) as [Heq|Hlt|Hgt].
  - rewrite Heq, Z.sub_diag. reflexivity.
  - assert ((chunk_size self - chunk_overlap self =? 0)%Z = false) as ->
      by (apply Z.eqb_neq; lia).
    assert ((chunk_size self - chunk_overlap self <? 0)%Z = true) as ->
      by (apply Z.ltb_lt; lia).
    reflexivity.
  - assert ((chunk_size self - chunk_overlap self =? 0)%Z = false) as ->
      by (apply Z.eqb_neq; lia).
    assert ((chunk_size self - chunk_overlap self <? 0)%Z = false) as ->
      by (apply Z.ltb_ge; lia).
    simpl. eauto.
Qed.

Lemma concat_strides {A} (l : list A) d c :
  concat (map (fun k => take d (drop (k * d) l)) (seq 0 c)) = take (c * d) l.
Proof.
  induction c as [|c IH]; [reflexivity|].
  rewrite seq_S, map_app, concat_app, IH. simpl. rewrite app_nil_r.
  rewrite take_take_drop. f_equal. lia.
Qed.

Lemma chunk_words_of_chunk self words k :
  Forall is_word words ->
  chunk_words (join " " (take (Z.to_nat (chunk_size self)) (drop (k * stride self) words))) =
  take (Z.to_nat (chunk_size self)) (drop (k * stride self) words).
Proof.
  intros Hw. apply split_ws_join, Forall_take, Forall_drop, Hw.
Qed.

(** X24. No word is lost. For a chunk size above an overlap that is
    not negative, the first words of the chunks, [stride] of each, are
    the words of the text in order. *)
Theorem chunks_keep_every_word self text chunks :
  well_sized self ->
  create_text_chunks self text = Ok chunks ->
  concat (map (fun chunk => take (stride self) (chunk_words chunk)) chunks) =
  PyStr.split_ws text.
Proof.
  intros Hsz. rewrite (create_text_chunks_spec self text Hsz). intros [= <-].
  rewrite map_map.
  rewrite (map_ext _ (fun k => take (stride self) (drop (k * stride self) (PyStr.split_ws text)))).
  - rewrite concat_strides. apply take_ge.
    apply div_up_bounds. unfold well_sized, stride in *. lia.
  - intros k. rewrite chunk_words_of_chunk by apply split_ws_words.
    rewrite take_take. f_equal. unfold well_sized, stride in *. lia.
Qed.

Lemma chunks_keep_every_word_witness :
  exists chunks,
    create_text_chunks small_processor "a b c  d e f" = Ok chunks /\
    chunks = ["a b c"; "c d e"; "e f"] /\
    concat (map (fun chunk => take 2 (chunk_words chunk)) chunks) =
    ["a"; "b"; "c"; "d"; "e"; "f"].
Proof.
  eexists. split; [vm_compute; reflexivity|]. split; [reflexivity|].
  assert (Hsz : well_sized small_processor) by (unfold well_sized; simpl; lia).
  exact (chunks_keep_every_word small_processor "a b c  d e f"
           ["a b c"; "c d e"; "e f"] Hsz eq_refl).
Defined.

(** X25. The chunks, one by one: there are as many as strides fit
    into the words, rounded up; chunk [k] holds the words from
    [k * stride] on, at most [chunk_size] and at least one of them,
    separated by single blanks. *)
Theorem chunks_are_word_windows self text chunks :
  well_sized self ->
  create_text_chunks self text = Ok chunks ->
  length chunks = div_up (length (PyStr.split_ws text)) (stride self) /\
  forall k chunk, chunks !! k = Some chunk ->
    chunk_words chunk =
      take (Z.to_nat (chunk_size self)) (drop (k * stride self) (PyStr.split_ws text)) /\
    (1 <= length (chunk_words chunk) <= Z.to_nat (chunk_size self))%nat /\
    chunk = join " " (chunk_words chunk).
Proof.
  intros Hsz. rewrite (create_text_chunks_spec self text Hsz). intros [= <-].
  split; [now rewrite length_map, length_seq|].
  intros k chunk Hk. rewrite list_lookup_fmap in Hk.
  destruct (seq 0 _ !! k) as [k'|] eqn:Hseq; [|discriminate].
  apply lookup_seq in Hseq as [-> Hlt]. simpl in Hk. injection Hk as <-.
  rewrite chunk_words_of_chunk by apply split_ws_words.
  split; [reflexivity|]. split; [|reflexivity].
  rewrite length_take, length_drop.
  pose proof (div_up_bounds (length (PyStr.split_ws text)) (stride self)) as Hb.
  unfold well_sized, stride in *. nia.
Qed.

Lemma chunks_are_word_windows_witness :
  exists chunks,
    create_text_chunks small_processor "a b c  d e f" = Ok chunks /\
    length chunks = 3%nat /\
    forall chunk, chunks !! 1%nat = Some chunk -> chunk_words chunk = ["c"; "d"; "e"].
Proof.
  eexists. split; [vm_compute; reflexivity|].
  assert (Hsz : well_sized small_processor) by (unfold well_sized; simpl; lia).
  destruct (chunks_are_word_windows small_processor "a b c  d e f"
              ["a b c"; "c d e"; "e f"] Hsz eq_refl) as [Hlen Hk].
  split; [exact Hlen|]. intros chunk Hc. exact (proj1 (Hk 1%nat chunk Hc)).
Defined.

(** X26. Consecutive chunks overlap: what a chunk holds after its
    first [stride] words is what the next chunk starts with, its first
    [chunk_overlap] words. *)
Theorem consecutive_chunks_overlap self text chunks k chunk next :
  well_sized self ->
  create_text_chunks self text = Ok chunks ->
  chunks !! k = Some chunk -> chunks !! S k = Some next ->
  drop (stride self) (chunk_words chunk) =
  take (Z.to_nat (chunk_overlap self)) (chunk_words next).
Proof.
  intros Hsz. rewrite (create_text_chunks_spec self text Hsz). intros [= <-] Hk Hn.
  rewrite list_lookup_fmap in Hk, Hn.
  destruct (seq 0 _ !! k) as [k'|] eqn:Hseq; [|discriminate].
  apply lookup_seq in Hseq as [-> _].
  cbn [fmap option_fmap option_map] in Hk. injection Hk as <-.
  destruct (seq 0 _ !! S k) as [k'|] eqn:Hseq; [|discriminate].
  apply lookup_seq in Hseq as [-> _].
  cbn [fmap option_fmap option_map] in Hn. injection Hn as <-.
  unfold chunk_words.
  rewrite !split_ws_join by apply Forall_take, Forall_drop, split_ws_words.
  rewrite skipn_firstn_comm, drop_drop, take_take.
  unfold well_sized, stride in *. f_equal; [lia|]. f_equal. lia.
Qed.

Lemma consecutive_chunks_overlap_witness :
  drop 2 (chunk_words "a b c") = take 1 (chunk_words "c d e").
Proof.
  assert (Hsz : well_sized small_processor) by (unfold well_sized; simpl; lia).
  exact (consecutive_chunks_overlap small_processor "a b c  d e f"
           ["a b c"; "c d e"; "e f"] 0 "a b c" "c d e" Hsz eq_refl eq_refl eq_refl).
Defined.

(** X27. A short text is one chunk. When the words fit into one
    stride, the result is the text with its white space normalised,
    its words separated by single blanks, and nothing for a text
    without words. *)
Theorem short_text_is_one_chunk self text :
  well_sized self ->
  (length (PyStr.split_ws text) <= stride self)%nat ->
  create_text_chunks self text =
  Ok (match PyStr.split_ws text with
      | [] => []
      | _ :: _ => [join " " (PyStr.split_ws text)]
      end).
Proof.
  intros Hsz Hlen. rewrite (create_text_chunks_spec self text Hsz). f_equal.
  pose proof (div_up_bounds (length (PyStr.split_ws text)) (stride self)) as Hb.
  assert (Hpos : (0 < stride self)%nat) by (unfold well_sized, stride in *; lia).
  specialize (Hb Hpos).
  destruct (PyStr.split_ws text) as [|w ws] eqn:Hw.
  - simpl in *. assert (div_up 0 (stride self) = 0)%nat as -> by nia. reflexivity.
  - assert (div_up (length (w :: ws)) (stride self) = 1)%nat as ->
      by (simpl in *; nia).
    simpl seq. simpl map. rewrite ?drop_0. rewrite take_ge; [reflexivity|].
    unfold well_sized, stride in *. simpl in *. lia.
Qed.

Lemma short_text_is_one_chunk_witness :
  create_text_chunks init "  Knee surgery   is   covered. " = Ok ["Knee surgery is covered."].
Proof.
  apply (short_text_is_one_chunk init).
  - unfold well_sized, init, CHUNK_SIZE, CHUNK_OVERLAP. simpl. lia.
  - apply Nat.leb_le. vm_compute. reflexivity.
Defined.

End Chunks.
